(** * Sprawl: order service and peer-to-peer transport

    A shallow embedding of [service/order.go] and [p2p/main.go] of
    eqlabs/sprawl, and the properties of the order lifecycle and of the
    stream layer that follow from the code.

    Go values are carried as follows: [[]byte] is [list byte], [string] is
    [string], [uint32]/[uint64] are [Z] with the wrap-around written out, a
    nil interface or pointer is [None], a [map[string]T] is a [gmap string T],
    and a call that may panic returns a [Go.result]. *)

From Stdlib Require Import ZArith List Lia Bool.
From Stdlib Require Import Init.Byte Strings.Ascii Strings.String.
From stdpp Require Import base option countable gmap strings list.
From Equations Require Import Equations.
Import ListNotations.

Local Open Scope Z_scope.

(** ** Byte sequences *)

Module Bytes.

Abbreviation bytes := (list byte).

Definition Z_of_byte (b : byte) : Z := Z.of_N (Byte.to_N b).

Definition byte_of_Z (z : Z) : byte :=
  default x00 (Byte.of_N (Z.to_N (z mod 256))).

(** [[]byte(s)] for a Go string [s]. *)
Fixpoint bytes_of_string (s : string) : bytes :=
  match s with
  | EmptyString => []
  | String c s' => byte_of_ascii c :: bytes_of_string s'
  end.

#[global] Instance byte_eq_dec : EqDecision byte := Byte.byte_eq_dec.

#[global] Instance byte_countable : Countable byte :=
  inj_countable Byte.to_N Byte.of_N Byte.of_to_N.

(** Big-endian encoding of [z] on [n] bytes ([binary.BigEndian.PutUint32],
    [PutUint64]). *)
Fixpoint be_bytes (n : nat) (z : Z) : bytes :=
  match n with
  | O => []
  | S n' => byte_of_Z (Z.shiftr z (8 * Z.of_nat n')) :: be_bytes n' z
  end.

(** Big-endian decoding: [uint32(p[0])<<24 | uint32(p[1])<<16 | ...]. *)
Definition be_word (p : bytes) : Z :=
  fold_left (fun acc b => Z.lor (Z.shiftl acc 8) (Z_of_byte b)) p 0.

(** The thirty-two bytes of a digest written as one number. *)
Definition hex (z : Z) : bytes := be_bytes 32 z.

End Bytes.
Import Bytes.

(** ** crypto/sha256 (the generic block function of the Go library) *)

Module Sha256.

Definition BlockSize : nat := 64.
Definition Size : nat := 32.

Definition u32 (z : Z) : Z := z mod 2 ^ 32.

(** [bits.RotateLeft32(x, -n)]: rotation to the right by [n]. *)
Definition rotr (x n : Z) : Z :=
  Z.lor (Z.shiftr x n) (u32 (Z.shiftl x (32 - n))).

(** [^x] on a [uint32]. *)
Definition not32 (x : Z) : Z := Z.lxor x 0xffffffff.

(** The round constants, four to a row. *)
Definition _K : list Z :=
  concat
    [ [0x428a2f98; 0x71374491; 0xb5c0fbcf; 0xe9b5dba5];
      [0x3956c25b; 0x59f111f1; 0x923f82a4; 0xab1c5ed5];
      [0xd807aa98; 0x12835b01; 0x243185be; 0x550c7dc3];
      [0x72be5d74; 0x80deb1fe; 0x9bdc06a7; 0xc19bf174];
      [0xe49b69c1; 0xefbe4786; 0x0fc19dc6; 0x240ca1cc];
      [0x2de92c6f; 0x4a7484aa; 0x5cb0a9dc; 0x76f988da];
      [0x983e5152; 0xa831c66d; 0xb00327c8; 0xbf597fc7];
      [0xc6e00bf3; 0xd5a79147; 0x06ca6351; 0x14292967];
      [0x27b70a85; 0x2e1b2138; 0x4d2c6dfc; 0x53380d13];
      [0x650a7354; 0x766a0abb; 0x81c2c92e; 0x92722c85];
      [0xa2bfe8a1; 0xa81a664b; 0xc24b8b70; 0xc76c51a3];
      [0xd192e819; 0xd6990624; 0xf40e3585; 0x106aa070];
      [0x19a4c116; 0x1e376c08; 0x2748774c; 0x34b0bcb5];
      [0x391c0cb3; 0x4ed8aa4a; 0x5b9cca4f; 0x682e6ff3];
      [0x748f82ee; 0x78a5636f; 0x84c87814; 0x8cc70208];
      [0x90befffa; 0xa4506ceb; 0xbef9a3f7; 0xc67178f2] ].

(** The eight chaining words [dig.h]. *)
Record digest := Digest {
  h0 : Z; h1 : Z; h2 : Z; h3 : Z; h4 : Z; h5 : Z; h6 : Z; h7 : Z }.

Definition init : digest :=
  Digest 0x6a09e667 0xbb67ae85 0x3c6ef372 0xa54ff53a
         0x510e527f 0x9b05688c 0x1f83d9ab 0x5be0cd19.

(** [w[i]] for [i < 16]: the chunk read as sixteen big-endian words. *)
Fixpoint words (n : nat) (p : bytes) : list Z :=
  match n with
  | O => []
  | S n' => be_word (firstn 4 p) :: words n' (skipn 4 p)
  end.

(** [w[i]] for [16 <= i < 64]; [w] holds the entries below [i]. *)
Definition extend (w : list Z) (i : nat) : list Z :=
  let v1 := nth (i - 2) w 0 in
  let t1 := Z.lxor (Z.lxor (rotr v1 17) (rotr v1 19)) (Z.shiftr v1 10) in
  let v2 := nth (i - 15) w 0 in
  let t2 := Z.lxor (Z.lxor (rotr v2 7) (rotr v2 18)) (Z.shiftr v2 3) in
  w ++ [u32 (t1 + nth (i - 7) w 0 + t2 + nth (i - 16) w 0)].

Definition schedule (p : bytes) : list Z :=
  fold_left extend (seq 16 48) (words 16 p).

(** One of the sixty-four rounds on the working variables [a..h]. *)
Definition round (w : list Z) (v : digest) (i : nat) : digest :=
  let '(Digest a b c d e f g h) := v in
  let t1 := u32 (h
    + Z.lxor (Z.lxor (rotr e 6) (rotr e 11)) (rotr e 25)
    + Z.lxor (Z.land e f) (Z.land (not32 e) g)
    + nth i _K 0 + nth i w 0) in
  let t2 := u32 (
      Z.lxor (Z.lxor (rotr a 2) (rotr a 13)) (rotr a 22)
    + Z.lxor (Z.lxor (Z.land a b) (Z.land a c)) (Z.land b c)) in
  Digest (u32 (t1 + t2)) a b c (u32 (d + t1)) e f g.

(** The body of [blockGeneric] for one chunk of 64 bytes. *)
Definition block1 (dig : digest) (p : bytes) : digest :=
  let w := schedule p in
  let '(Digest a b c d e f g h) := fold_left (round w) (seq 0 64) dig in
  Digest (u32 (h0 dig + a)) (u32 (h1 dig + b)) (u32 (h2 dig + c))
         (u32 (h3 dig + d)) (u32 (h4 dig + e)) (u32 (h5 dig + f))
         (u32 (h6 dig + g)) (u32 (h7 dig + h)).

(** [for len(p) >= chunk { ...; p = p[chunk:] }], [n] chunks. *)
Fixpoint block (n : nat) (dig : digest) (p : bytes) : digest :=
  match n with
  | O => dig
  | S n' => block n' (block1 dig (firstn BlockSize p)) (skipn BlockSize p)
  end.

(** The padding written by [checkSum]: [0x80], zeros up to 56 modulo 64,
    then the length in bits as a big-endian [uint64]. *)
Definition padding (len : nat) : bytes :=
  let r := (len mod 64)%nat in
  let k := if (r <? 56)%nat then (56 - r)%nat else (64 + 56 - r)%nat in
  x80 :: repeat x00 (k - 1) ++ be_bytes 8 (Z.of_nat len * 8 mod 2 ^ 64).

Definition digest_bytes (d : digest) : bytes :=
  be_bytes 4 (h0 d) ++ be_bytes 4 (h1 d) ++ be_bytes 4 (h2 d)
  ++ be_bytes 4 (h3 d) ++ be_bytes 4 (h4 d) ++ be_bytes 4 (h5 d)
  ++ be_bytes 4 (h6 d) ++ be_bytes 4 (h7 d).

(** [h := sha256.New(); h.Write(data); h.Sum(nil)]. *)
Definition Sum256 (data : bytes) : bytes :=
  let p := data ++ padding (length data) in
  digest_bytes (block (length p / 64) init p).

#[global] Arguments Sum256 : simpl never.

End Sha256.

(** ** crypto/hmac over SHA-256 *)

Module Hmac.

Definition xor_pad (pad : Z) (key : bytes) : bytes :=
  map (fun b => byte_of_Z (Z.lxor (Z_of_byte b) pad)) key.

(** [hmac.New(sha256.New, key)]: a key longer than the block size is
    hashed first; it is then padded with zeros to the block size. *)
Definition block_key (key : bytes) : bytes :=
  let k := if (Sha256.BlockSize <? length key)%nat
           then Sha256.Sum256 key else key in
  k ++ repeat x00 (Sha256.BlockSize - length k).

(** [h.Write(msg); h.Sum(nil)]. *)
Definition Sum (key msg : bytes) : bytes :=
  let k := block_key key in
  Sha256.Sum256 (xor_pad 0x5c k ++ Sha256.Sum256 (xor_pad 0x36 k ++ msg)).

#[global] Arguments Sum : simpl never.

End Hmac.

(** ** Go calls: errors, results and panics *)

Module Go.

(** An [error] value, carried by its message; the nil error is [None]. *)
Definition error := string.

(** The outcome of a call returning [(T, error)] whose value is only
    meaningful without error. *)
Inductive res (A : Type) : Type :=
| Ok (a : A)
| Err (e : error).
Arguments Ok {A} a.
Arguments Err {A} e.

(** A call either returns to its caller or panics. An unrecovered panic
    unwinds the goroutine it occurs in and terminates the process. *)
Inductive result (A : Type) : Type :=
| Return (a : A)
| Panic (v : error).
Arguments Return {A} a.
Arguments Panic {A} v.

Definition returns {A} (r : result A) : bool :=
  match r with Return _ => true | Panic _ => false end.

(** The runtime error raised by a method call on a nil interface. *)
Definition nil_dereference : error :=
  "runtime error: invalid memory address or nil pointer dereference".

End Go.
Import Go.

(** ** Protocol buffer messages (package pb) *)

(** Modelled from the spec: the message types of package pb, which is
    generated code outside the source; the fields are those the source
    reads and writes, and "Order - {id, created (timestamp), asset,
    counterAsset, amount (unsigned integer), price (floating point), state,
    signature (byte sequence)}", "state in {OPEN, LOCKED}", "WireMessage -
    {operation in {CREATE, DELETE, LOCK, UNLOCK}, channelId, payload}",
    "Channel - {id, asset, counterAsset}". *)

Module Pb.

(** [timestamp.Timestamp]. *)
Record Timestamp := { Seconds : Z; Nanos : Z }.

Inductive State := State_OPEN | State_LOCKED.

(** [Price] is a floating point number that the service only copies; it
    is carried by its IEEE 754 bit pattern. *)
Record CreateRequest := {
  in_Asset : bytes;
  in_CounterAsset : bytes;
  in_Amount : Z;
  in_Price : Z }.

Record Order := {
  Id : bytes;
  Created : Timestamp;
  Asset : bytes;
  CounterAsset : bytes;
  Amount : Z;
  Price : Z;
  State_ : State;
  Signature : bytes }.

Record CreateResponse := {
  CreatedOrder : option Order;
  Error : option error }.

Record OrderSpecificRequest := { GetId : bytes }.

Record GenericResponse := { GenericResponse_Error : option error }.

Record Channel := {
  Channel_Id : bytes;
  Channel_Asset : bytes;
  Channel_CounterAsset : bytes }.

Inductive Operation := CREATE | DELETE | LOCK | UNLOCK.

Record WireMessage := {
  operation : Operation;
  channelId : bytes;
  payload : bytes }.

End Pb.
Import Pb.

(** ** Collaborator interfaces (package interfaces) *)

Module Interfaces.

(** [fmt.Stringer], as generated for every message. *)
Class Stringer (A : Type) := String_ : A -> string.

(** [proto.Marshal] and [proto.Unmarshal] at one message type. *)
Class Message (A : Type) := {
  Marshal : A -> res bytes;
  Unmarshal : bytes -> res A }.

(** Modelled from the spec: the declaration of [interfaces.Storage], the
    key-value store the services persist into: "Put(key, value) -> error;
    Get(key) -> (value, error); Delete(key) -> error". [S] is the state
    of the store. *)
Class Storage (S : Type) := {
  Put : bytes -> bytes -> S -> option error * S;
  Get : bytes -> S -> res bytes;
  Delete : bytes -> S -> option error * S }.

(** [interfaces.P2p]: the methods that act on the network. [P] is the
    state of the network service. *)
Class P2p (P : Type) := {
  Send : WireMessage -> P -> P;
  Subscribe : Channel -> P -> P;
  Unsubscribe : Channel -> P -> P }.

(** Modelled from the spec: the declaration of [interfaces.Receiver],
    the "registered receiver callback" frames are forwarded to. [R] is the
    state of the receiver. *)
Class Receiver (R : Type) := Receive : bytes -> R -> option error * R.

End Interfaces.
Import Interfaces.

(** ** service/order.go *)

Module Service.

Section OrderService.

Context {S P : Type}.
Context `{!Storage S, !P2p P}.
Context `{!Stringer CreateRequest, !Stringer Timestamp, !Message Order}.

(** [OrderService] holds its collaborators; a collaborator that was
    never registered is nil. *)
Record OrderService := {
  storage : option S;
  p2p : option P }.

Definition RegisterStorage (st : S) (s : OrderService) : OrderService :=
  {| storage := Some st; p2p := p2p s |}.

Definition RegisterP2p (p : P) (s : OrderService) : OrderService :=
  {| storage := storage s; p2p := Some p |}.

Definition secret : string := "mysecret".

(** Lines 37 to 46 of [Create]: the HMAC of the request's text followed
    by the timestamp's text. *)
Definition order_id (in_ : CreateRequest) (now : Timestamp) : bytes :=
  Hmac.Sum (bytes_of_string secret)
           (bytes_of_string (String_ in_) ++ bytes_of_string (String_ now)).

Definition new_order (in_ : CreateRequest) (now : Timestamp) : Order :=
  {| Id := order_id in_ now;
     Created := now;
     Asset := in_Asset in_;
     CounterAsset := in_CounterAsset in_;
     Amount := in_Amount in_;
     Price := in_Price in_;
     State_ := State_OPEN;
     Signature := [] |}.

(** [Create]; [now] is what [ptypes.TimestampNow()] reads from the
    clock. The line printed on standard output is left out. *)
Definition Create (s : OrderService) (now : Timestamp) (in_ : CreateRequest)
  : result (CreateResponse * option error) * OrderService :=
  let id := order_id in_ now in
  let order := new_order in_ now in
  match Marshal order with
  | Err err => (Panic err, s)
  | Ok orderInBytes =>
      match storage s with
      | None => (Panic nil_dereference, s)
      | Some st =>
          let '(err, st') := Put id orderInBytes st in
          let s' := {| storage := Some st'; p2p := p2p s |} in
          match err with
          | Some err => (Panic err, s')
          | None =>
              (Return ({| CreatedOrder := Some order; Error := None |},
                       None), s')
          end
      end
  end.

Definition Delete (s : OrderService) (in_ : OrderSpecificRequest)
  : result (GenericResponse * option error) * OrderService :=
  match storage s with
  | None => (Panic nil_dereference, s)
  | Some st =>
      let '(err, st') := Interfaces.Delete (GetId in_) st in
      let s' := {| storage := Some st'; p2p := p2p s |} in
      match err with
      | Some err => (Panic err, s')
      | None => (Return ({| GenericResponse_Error := None |}, None), s')
      end
  end.

Definition Lock (s : OrderService) (in_ : OrderSpecificRequest)
  : result (GenericResponse * option error) * OrderService :=
  (Return ({| GenericResponse_Error := None |}, None), s).

Definition Unlock (s : OrderService) (in_ : OrderSpecificRequest)
  : result (GenericResponse * option error) * OrderService :=
  (Return ({| GenericResponse_Error := None |}, None), s).

(** Modelled from the spec: [getOrderStorageKey], which the tests exercise
    and [order.go] does not define: "Key layout convention:
    <entityPrefix><channelScope><entityId>". [OrderPrefix] stands for the
    constant [interfaces.OrderPrefix]. *)
Definition getOrderStorageKey (OrderPrefix channelID orderID : bytes) : bytes :=
  OrderPrefix ++ channelID ++ orderID.

(** Modelled from the spec: the handler that reads an order back, which
    the tests call and [order.go] does not define: "GetOrder(channel,
    orderId) -> Order or NotFoundError". It reads the record under the key
    of the layout above, "<entityPrefix><channelScope><entityId>", and
    decodes it; the error of the store for an absent key is the error it
    returns. *)
Definition GetOrder (OrderPrefix : bytes) (s : OrderService)
    (channelID orderID : bytes) : result (option Order * option error) :=
  match storage s with
  | None => Panic nil_dereference
  | Some st =>
      match Get (getOrderStorageKey OrderPrefix channelID orderID) st with
      | Err err => Return (None, Some err)
      | Ok data =>
          match Unmarshal data with
          | Err err => Return (None, Some err)
          | Ok order => Return (Some order, None)
          end
      end
  end.

End OrderService.

Arguments OrderService : clear implicits.
#[global] Arguments order_id : simpl never.

End Service.

(** ** p2p/main.go: discovery broadcast and the stream layer *)

Module P2pMain.

Definition PeerID := string.

(** [peer.AddrInfo]. *)
Record AddrInfo := { ID : PeerID; Addrs : list string }.

(** A [network.Stream]: a conduit to one remote peer. *)
Record NetStream := { sid : nat; remote : PeerID }.

(** What the node does on the network and to its receiver, in the order
    it happens. *)
Inductive Event :=
| EvNewStream (p : PeerID) (err : option error)
| EvWrite (s : NetStream) (data : bytes)
| EvFlush (s : NetStream)
| EvReceive (data : bytes)
| EvClose (s : NetStream).

(** The network the node runs in decides, from what happened so far,
    whether a call on it fails. *)
Record Network := {
  dial : list Event -> PeerID -> res nat;
  write_error : list Event -> NetStream -> bytes -> option error;
  flush_error : list Event -> NetStream -> option error;
  close_error : list Event -> NetStream -> option error }.

(** [host.Host]: the node's identity on the network. *)
Record Host := { host_ID : PeerID }.

(** [bufio.Reader] over a stream: the bytes the stream still delivers and
    the error it ends with ([io.EOF], a reset). *)
Record Reader := { pending : bytes; failure : error }.

(** [Stream]; a field that was not set is nil. *)
Record Stream := {
  stream : option NetStream;
  input : option NetStream;
  output : option Reader }.

(** The zero value a map yields for a key it does not hold. *)
Definition zero_Stream : Stream :=
  {| stream := None; input := None; output := None |}.

(** [P2p], with the fields the functions below use. Modelled from the
    spec: the field [streams], which [OpenStream] and [CloseStream] use and
    the declaration in the source does not have: streams are "keyed by peer
    identity string". [Logger] holds the lines logged so far; it is nil on
    a node no logger was given to. *)
Record P2p := {
  host : Host;
  peerChan : list AddrInfo;
  streams : gmap string Stream;
  Logger : option (list string) }.

Definition newline : byte := x0a.

(** The bytes up to and including the first [delim], and the rest. *)
Fixpoint split_delim (delim : byte) (p : bytes) : option (bytes * bytes) :=
  match p with
  | [] => None
  | b :: p' =>
      if decide (b = delim) then Some ([b], p')
      else match split_delim delim p' with
           | Some (line, rest) => Some (b :: line, rest)
           | None => None
           end
  end.

(** [reader.ReadBytes(delim)]: the data up to and including the delimiter,
    or the data read before the stream ended together with its error. *)
Definition ReadBytes (delim : byte) (reader : Reader)
  : (bytes * option error) * Reader :=
  match split_delim delim (pending reader) with
  | Some (line, rest) =>
      ((line, None), {| pending := rest; failure := failure reader |})
  | None =>
      ((pending reader, Some (failure reader)),
       {| pending := []; failure := failure reader |})
  end.

(** A successful [ReadBytes] takes at least one byte off the stream: the
    measure under which the read loops below terminate. *)
Ltac split_delim_consumes :=
  lazymatch goal with
  | Hs : split_delim ?d ?p = Some (?l, ?r) |- (length ?r < length ?p)%nat =>
      clear - Hs; revert l r Hs; induction p as [|b p IH]; intros l r Hs; simpl in Hs;
      [ discriminate Hs
      | destruct (decide (b = d));
        [ injection Hs as <- <-; simpl; lia
        | destruct (split_delim d p) as [[l' r']|];
          [ injection Hs as <- <-; specialize (IH l' r' eq_refl); simpl; lia
          | discriminate Hs ] ] ]
  end.

Ltac ReadBytes_consumes :=
  lazymatch goal with
  | Heq : ReadBytes ?d ?reader = (_, ?reader')
    |- (length (pending ?reader') < length (pending ?reader))%nat =>
      unfold ReadBytes in Heq;
      let p := fresh "p" in
      let l := fresh "l" in
      let r := fresh "r" in
      let Hs := fresh "Hs" in
      let Hlt := fresh "Hlt" in
      remember (pending reader) as p eqn:Hp; clear Hp;
      destruct (split_delim d p) as [[l r]|] eqn:Hs;
      [ assert (Hlt : (length r < length p)%nat) by split_delim_consumes;
        inversion Heq; subst; simpl; exact Hlt
      | discriminate Heq ]
  end.

(** The peer an event reaches out to. *)
Definition target (e : Event) : option PeerID :=
  match e with
  | EvNewStream p _ => Some p
  | EvWrite s _ | EvFlush s | EvClose s => Some (remote s)
  | EvReceive _ => None
  end.

(** The peers a stream was requested to, those it was opened to, those
    that were written to, the frames handed to the receiver and the streams
    closed, in order. *)
Definition dialled (tr : list Event) : list PeerID :=
  omap (fun e => match e with EvNewStream p _ => Some p | _ => None end) tr.

Definition opened (tr : list Event) : list PeerID :=
  omap (fun e => match e with EvNewStream p None => Some p | _ => None end) tr.

Definition written (tr : list Event) : list PeerID :=
  omap (fun e => match e with EvWrite s _ => Some (remote s) | _ => None end) tr.


Definition closes (tr : list Event) : list NetStream :=
  omap (fun e => match e with EvClose s => Some s | _ => None end) tr.

(** The bytes handed to [Write], in order. *)
Definition payloads (tr : list Event) : list bytes :=
  omap (fun e => match e with EvWrite _ data => Some data | _ => None end) tr.

(** A frame: bytes up to and including the first newline. *)
Definition is_frame (f : bytes) : Prop :=
  exists body, f = body ++ [newline] /\ newline ∉ body.

(** What one turn of a loop decides. *)
Inductive control (A : Type) : Type :=
| Continue
| Done (r : result A).
Arguments Continue {A}.
Arguments Done {A} r.

Definition inspect {A} (a : A) : {b | a = b} := exist _ a eq_refl.

(** *** The first transport: [readData], [writeData], [sendToPeers] *)

(** [fmt.Println(s)] and [fmt.Printf("\x1b[32m%s\x1b[0m> ", data)]: what
    they write on the console. *)
Definition Println (s : string) : bytes := bytes_of_string s ++ [newline].

Definition Printf_green (data : bytes) : bytes :=
  x1b :: bytes_of_string "[32m" ++ data ++ x1b :: bytes_of_string "[0m> ".

(** [readData]; [out] is what was printed on the console. *)
Equations? readData (reader : Reader) (out : list bytes)
  : result unit * list bytes by wf (length (pending reader)) lt :=
  readData reader out with inspect (ReadBytes newline reader) => {
    | exist _ ((data, Some err), _) _ :=
        (Panic err, out ++ [Println "Error reading from buffer"]);
    | exist _ (([], None), _) _ := (Return tt, out);
    | exist _ ((b :: data, None), reader') Heq :=
        readData reader'
          (if decide (b = newline) then out
           else out ++ [Printf_green (b :: data)]) }.
Proof. all: ReadBytes_consumes. Qed.

Section Transport.

Context (net : Network).

(** [writeData] on the writer of stream [s]; the line it prints before a
    panic is left out. *)
Definition writeData (s : NetStream) (input : bytes) (tr : list Event)
  : result unit * list Event :=
  let tr1 := tr ++ [EvWrite s input] in
  match write_error net tr s input with
  | Some err => (Panic err, tr1)
  | None =>
      let tr2 := tr1 ++ [EvFlush s] in
      match flush_error net tr1 s with
      | Some err => (Panic err, tr2)
      | None => (Return tt, tr2)
      end
  end.

(** [sendToPeers]; [peerChan] holds the peers the discovery channel
    yields until it is closed. *)
Fixpoint sendToPeers (host : Host) (peerChan : list AddrInfo)
    (input : bytes) (tr : list Event) : result unit * list Event :=
  match peerChan with
  | [] => (Return tt, tr)
  | peer :: peerChan' =>
      if decide (ID peer = host_ID host) then
        sendToPeers host peerChan' input tr
      else
        match dial net tr (ID peer) with
        | Err err =>
            sendToPeers host peerChan' input
              (tr ++ [EvNewStream (ID peer) (Some err)])
        | Ok n =>
            let s := {| sid := n; remote := ID peer |} in
            match writeData s input (tr ++ [EvNewStream (ID peer) None]) with
            | (Panic v, tr') => (Panic v, tr')
            | (Return _, tr') => sendToPeers host peerChan' input tr'
            end
        end
  end.

Definition SendToPeers (p2p : P2p) (input : bytes) (tr : list Event)
  : result unit * list Event :=
  sendToPeers (host p2p) (peerChan p2p) input tr.

(** [listenPeers]; [go readData(reader)] starts a read loop on the stream
    and goes on with the next peer: the result holds the streams a read
    loop was started on, in order. *)
Fixpoint listenPeers (host : Host) (peerChan : list AddrInfo)
    (tr : list Event) : list NetStream * list Event :=
  match peerChan with
  | [] => ([], tr)
  | peer :: peerChan' =>
      if decide (ID peer = host_ID host) then listenPeers host peerChan' tr
      else
        match dial net tr (ID peer) with
        | Err err =>
            listenPeers host peerChan' (tr ++ [EvNewStream (ID peer) (Some err)])
        | Ok n =>
            let '(readers, tr') :=
              listenPeers host peerChan' (tr ++ [EvNewStream (ID peer) None]) in
            ({| sid := n; remote := ID peer |} :: readers, tr')
        end
  end.

(** *** The stream layer: [receiveStream], [OpenStream], [CloseStream] *)

(** The repository's [errors] package builds and tests error values:
    [E op err] is [errors.E(errors.Op(op), err)]. *)
Context (E : string -> option error -> error).
Context (IsEmpty : option error -> bool).
Context (IDFromString : string -> PeerID).
Context {R : Type} `{!Receiver R}.

(** The receiver after it was handed the frames, one after the other. *)
Definition feed (frames : list bytes) (rc : R) : R :=
  fold_left (fun rc data => snd (Receive data rc)) frames rc.

(** A turn of the loop of [receiveStream] once [ReadBytes] returned
    [data] without error: the [else] branch and the test that follows
    it. *)
Definition receiveStream_frame (stream_ : Stream) (receiver : option R)
    (data : bytes) (tr : list Event)
  : control (option error) * (option R * list Event) :=
  match receiver with
  | None =>
      (Done (Return (Some
         (E "No receiver defined for stream.receiveStream" None))),
       (None, tr))
  | Some rc =>
      let '(err, rc') := Receive data rc in
      let tr1 := tr ++ [EvReceive data] in
      if negb (IsEmpty err) then
        (Done (Return (Some
           (E "Passing data from stream to receiver" err))),
         (Some rc', tr1))
      else
        match data with
        | [] =>
            match stream stream_ with
            | None => (Done (Panic nil_dereference), (Some rc', tr1))
            | Some s => (Done (Return None), (Some rc', tr1 ++ [EvClose s]))
            end
        | _ :: _ => (Continue, (Some rc', tr1))
        end
  end.

Equations? receiveStream (stream_ : Stream) (reader : Reader)
    (receiver : option R) (tr : list Event)
  : result (option error) * (option R * list Event)
  by wf (length (pending reader)) lt :=
  receiveStream stream_ reader receiver tr
    with inspect (ReadBytes newline reader) => {
    | exist _ ((data, Some err), _) _ :=
        (Return (Some (E "Reading bytes from stream" (Some err))),
         (receiver, tr));
    | exist _ ((data, None), reader') Heq
        with receiveStream_frame stream_ receiver data tr => {
        | (Done r, st) := (r, st);
        | (Continue, (receiver', tr')) :=
            receiveStream stream_ reader' receiver' tr' } }.
Proof. all: ReadBytes_consumes. Qed.

(** [handleStream] of the stream layer: the read loop of an accepted
    stream [buf]; what the loop returns is dropped. *)
Definition handleStream (buf : NetStream) (reader : Reader)
    (receiver : option R) (tr : list Event)
  : result (option error) * (option R * list Event) :=
  receiveStream {| stream := Some buf; input := None; output := Some reader |}
                reader receiver tr.

Definition writeToStream (stream_ : Stream) (data : bytes)
    (tr : list Event) : result (option error) * list Event :=
  match input stream_ with
  | None => (Panic nil_dereference, tr)
  | Some s =>
      let tr1 := tr ++ [EvWrite s data] in
      (Return (flush_error net tr1 s), tr1 ++ [EvFlush s])
  end.

Definition with_streams (p2p : P2p) (m : gmap string Stream) : P2p :=
  {| host := host p2p; peerChan := peerChan p2p; streams := m;
     Logger := Logger p2p |}.

Definition with_Logger (p2p : P2p) (lines : list string) : P2p :=
  {| host := host p2p; peerChan := peerChan p2p; streams := streams p2p;
     Logger := Some lines |}.

(** [p2p.Logger.Errorf] and [p2p.Logger.Debugf]: a call on the nil logger
    panics, one on a logger adds the line. *)
Definition log_line (p2p : P2p) (line : string) : result unit * P2p :=
  match Logger p2p with
  | None => (Panic nil_dereference, p2p)
  | Some lines => (Return tt, with_Logger p2p (lines ++ [line]))
  end.

(** [OpenStream]; the error of [peer.IDFromString] is overwritten by the
    result of [NewStream], and the stream is put into the map before the
    line is logged. The line printed on the console is left out. *)
Definition OpenStream (p2p : P2p) (peerIDString : string)
    (tr : list Event) : result (option error) * (P2p * list Event) :=
  let peerID := IDFromString peerIDString in
  match dial net tr peerID with
  | Err err =>
      let tr1 := tr ++ [EvNewStream peerID (Some err)] in
      match log_line p2p ("Stream open failed: " +:+ err) with
      | (Panic v, p2p1) => (Panic v, (p2p1, tr1))
      | (Return _, p2p1) => (Return (Some err), (p2p1, tr1))
      end
  | Ok n =>
      let s := {| sid := n; remote := peerID |} in
      let tr1 := tr ++ [EvNewStream peerID None] in
      let p2p1 :=
        with_streams p2p
          (<[peerIDString := {| stream := Some s; input := Some s;
                                output := None |}]> (streams p2p)) in
      match log_line p2p1 ("Stream opened with " +:+ peerID) with
      | (Panic v, p2p2) => (Panic v, (p2p2, tr1))
      | (Return _, p2p2) => (Return None, (p2p2, tr1))
      end
  end.

(** [CloseStream]: indexing the map at a key it does not hold yields the
    zero [Stream], whose [stream] is nil. *)
Definition CloseStream (p2p : P2p) (peerIDString : string)
    (tr : list Event) : result (option error) * (P2p * list Event) :=
  match stream (default zero_Stream (streams p2p !! peerIDString)) with
  | None => (Panic nil_dereference, (p2p, tr))
  | Some s =>
      (Return (close_error net tr s),
       (with_streams p2p (delete peerIDString (streams p2p)),
        tr ++ [EvClose s]))
  end.

End Transport.

(** Every entry of the map of streams holds a stream. *)
Definition registered_ok (p2p : P2p) : Prop :=
  forall peerIDString st,
    streams p2p !! peerIDString = Some st -> is_Some (stream st).

(** After [funelim], drop the equation that records what [inspect] saw. *)
Ltac forget_inspect :=
  repeat match goal with
         | H : {| pr1 := _; pr2 := _ |} = _ |- _ => clear H
         end.

End P2pMain.

(** ** The key-value store (package db) *)

Module Db.

(** Modelled from the spec: [db.Storage], the store behind
    [interfaces.Storage], of which only the callers are in the source:
    [Put] writes the value under the key, [Get] reads it back and fails
    for an absent key, [Delete] removes it. A store whose [fault] is set
    (a closed or failing database) refuses every write with it. *)
Record Store := {
  db : gmap bytes bytes;
  fault : option error }.

Definition open (m : gmap bytes bytes) : Store :=
  {| db := m; fault := None |}.

Definition store_Put (key value : bytes) (st : Store) : option error * Store :=
  match fault st with
  | Some err => (Some err, st)
  | None => (None, {| db := <[key := value]> (db st); fault := None |})
  end.

Definition store_Get (key : bytes) (st : Store) : res bytes :=
  match db st !! key with
  | Some value => Ok value
  | None => Err "leveldb: not found"
  end.

Definition store_Delete (key : bytes) (st : Store) : option error * Store :=
  match fault st with
  | Some err => (Some err, st)
  | None => (None, {| db := delete key (db st); fault := None |})
  end.

#[global] Instance Store_Storage : Storage Store :=
  {| Put := store_Put; Get := store_Get; Delete := store_Delete |}.

End Db.

(** ** Stand-ins for generated code and collaborators, for the examples *)

Module Fixtures.

Import stdpp.pretty.

(** A text rendering in the manner of the protocol buffer text format. *)
#[global] Instance CreateRequest_Stringer : Stringer CreateRequest :=
  fun in_ =>
    ("asset:" +:+ string_of_list_byte (in_Asset in_)
     +:+ " counterAsset:" +:+ string_of_list_byte (in_CounterAsset in_)
     +:+ " amount:" +:+ pretty (in_Amount in_)
     +:+ " price:" +:+ pretty (in_Price in_))%string.

#[global] Instance Timestamp_Stringer : Stringer Timestamp :=
  fun now =>
    ("seconds:" +:+ pretty (Seconds now)
     +:+ " nanos:" +:+ pretty (Nanos now))%string.

(** A length-prefixed binary encoding of [Order]. *)
Definition put_Z (z : Z) : bytes := be_bytes 8 z.

Definition put_bytes (b : bytes) : bytes :=
  be_bytes 4 (Z.of_nat (length b)) ++ b.

Definition put_State (s : State) : bytes :=
  match s with State_OPEN => [x00] | State_LOCKED => [x01] end.

Definition encode (o : Order) : bytes :=
  put_bytes (Id o) ++ put_Z (Seconds (Created o)) ++ put_Z (Nanos (Created o))
  ++ put_bytes (Asset o) ++ put_bytes (CounterAsset o)
  ++ put_Z (Amount o) ++ put_Z (Price o)
  ++ put_State (State_ o) ++ put_bytes (Signature o).

Definition parser (A : Type) : Type := bytes -> option (A * bytes).

Definition take (n : nat) : parser bytes :=
  fun p => if (length p <? n)%nat then None else Some (firstn n p, skipn n p).

Definition get_Z : parser Z :=
  fun p => '(w, p) ← take 8 p; Some (be_word w, p).

Definition get_bytes : parser bytes :=
  fun p => '(w, p) ← take 4 p; take (Z.to_nat (be_word w)) p.

Definition get_State : parser State :=
  fun p =>
    match p with
    | b :: p' =>
        if decide (b = x00) then Some (State_OPEN, p')
        else if decide (b = x01) then Some (State_LOCKED, p') else None
    | [] => None
    end.

Definition decode (p : bytes) : option Order :=
  '(id, p) ← get_bytes p;
  '(seconds, p) ← get_Z p;
  '(nanos, p) ← get_Z p;
  '(asset, p) ← get_bytes p;
  '(counterAsset, p) ← get_bytes p;
  '(amount, p) ← get_Z p;
  '(price, p) ← get_Z p;
  '(state, p) ← get_State p;
  '(signature, p) ← get_bytes p;
  match p with
  | [] => Some {| Id := id;
                  Created := {| Seconds := seconds; Nanos := nanos |};
                  Asset := asset; CounterAsset := counterAsset;
                  Amount := amount; Price := price;
                  State_ := state; Signature := signature |}
  | _ :: _ => None
  end.

#[global] Instance Order_Message : Message Order :=
  {| Marshal o := Ok (encode o);
     Unmarshal p := match decode p with
                    | Some o => Ok o
                    | None => Err "proto: cannot parse invalid wire-format data"
                    end |}.

(** A network service that records what it is asked to send. *)
#[global] Instance Recording_P2p : P2p (list WireMessage) :=
  {| Send m sent := sent ++ [m];
     Subscribe _ sent := sent;
     Unsubscribe _ sent := sent |}.

(** A receiver that keeps every frame and refuses none. *)
#[global] Instance Recording_Receiver : Receiver (list bytes) :=
  fun data kept => (None, kept ++ [data]).

Definition E (op : string) (err : option error) : error :=
  match err with
  | Some e => (op +:+ ": " +:+ e)%string
  | None => op
  end.

Definition IsEmpty (err : option error) : bool :=
  match err with None => true | Some _ => false end.

(** The request of the tests: 52617562718 units of ETH against BTC at
    price 0.1 (as a 32-bit float, [0x3dcccccd]). *)
Definition testOrder : CreateRequest :=
  {| in_Asset := bytes_of_string "ETH";
     in_CounterAsset := bytes_of_string "BTC";
     in_Amount := 52617562718;
     in_Price := 0x3dcccccd |}.

Definition testNow : Timestamp :=
  {| Seconds := 1570000000; Nanos := 123456789 |}.

Definition testLater : Timestamp :=
  {| Seconds := 1570000001; Nanos := 123456789 |}.

Definition testService : Service.OrderService Db.Store (list WireMessage) :=
  {| Service.storage := Some (Db.open ∅); Service.p2p := Some [] |}.

Import Service.

Definition testResponse : CreateResponse :=
  {| CreatedOrder := Some (new_order testOrder testNow); Error := None |}.

Definition testRecord : bytes := encode (new_order testOrder testNow).

Definition testStored : OrderService Db.Store (list WireMessage) :=
  {| storage := Some (Db.open {[ order_id testOrder testNow := testRecord ]});
     p2p := Some [] |}.

(** The service after the same request was created a second later. *)
Definition testStoredTwice : OrderService Db.Store (list WireMessage) :=
  {| storage :=
       Some (Db.open (<[order_id testOrder testLater :=
                          encode (new_order testOrder testLater)]>
                        {[ order_id testOrder testNow := testRecord ]}));
     p2p := Some [] |}.

(** A service whose database was closed. *)
Definition closedService : OrderService Db.Store (list WireMessage) :=
  {| storage := Some {| Db.db := ∅; Db.fault := Some "leveldb: closed" |};
     p2p := Some [] |}.

Import P2pMain.

(** A network on which [QmDown] cannot be reached and nothing else
    fails, and one on which writes to [QmBroken] fail. *)
Definition flakyNet : Network :=
  {| dial tr p := if decide (p = "QmDown") then Err "dial backoff"
                  else Ok (length tr);
     write_error _ _ _ := None;
     flush_error _ _ := None;
     close_error _ _ := None |}.

Definition brokenNet : Network :=
  {| dial tr p := Ok (length tr);
     write_error _ s _ := if decide (remote s = "QmBroken")
                          then Some "stream reset" else None;
     flush_error _ _ := None;
     close_error _ _ := None |}.

Definition testHost : Host := {| host_ID := "QmSelf" |}.

Definition peer (id : PeerID) : AddrInfo := {| ID := id; Addrs := [] |}.

Definition testPeers : list AddrInfo :=
  [peer "QmA"; peer "QmSelf"; peer "QmDown"; peer "QmB"].

Definition testMessage : bytes := bytes_of_string "order" ++ [newline].

(** A receiver that decodes what it is handed and refuses an empty line. *)
Record Decoder := { decoded : list bytes }.

#[global] Instance Decoder_Receiver : Receiver Decoder :=
  fun data d =>
    if decide (data = [newline])
    then (Some "proto: cannot parse invalid wire-format data", d)
    else (None, {| decoded := decoded d ++ [data] |}).

Definition inbound : NetStream := {| sid := 7; remote := "QmA" |}.

Definition inboundStream : Stream :=
  {| stream := Some inbound; input := None; output := None |}.

(** Streams that end, with [EOF], in the middle of a line, after two
    lines, and after an empty line. *)
Definition eofReader : Reader :=
  {| pending := bytes_of_string "abc"; failure := "EOF" |}.

Definition twoFrames : Reader :=
  {| pending := bytes_of_string "ab" ++ [newline]
                ++ bytes_of_string "cd" ++ [newline] ++ bytes_of_string "ef";
     failure := "EOF" |}.

Definition emptyLine : Reader :=
  {| pending := bytes_of_string "ab" ++ [newline; newline]
                ++ bytes_of_string "cd" ++ [newline];
     failure := "EOF" |}.

Definition testP2p : P2p :=
  {| host := testHost; peerChan := testPeers; streams := ∅;
     Logger := Some [] |}.

(** A node no logger was given to. *)
Definition silentP2p : P2p :=
  {| host := testHost; peerChan := testPeers; streams := ∅; Logger := None |}.

(** A stand-in for [peer.IDFromString]: a string that is a SHA-256
    multihash (the bytes 18 and 32, then thirty-two bytes) is the peer
    identity it denotes, any other string denotes the empty identity. *)
Definition IDFromString (s : string) : PeerID :=
  match s with
  | String a (String b digest) =>
      if decide (a = "018"%char /\ b = " "%char
                 /\ String.length digest = 32%nat)
      then s else ""%string
  | _ => ""%string
  end.

Definition testPeerID : string :=
  String "018" (String " " "0123456789abcdef0123456789abcdef").

Definition streamToA : Stream :=
  {| stream := Some {| sid := 0; remote := "QmA" |};
     input := Some {| sid := 0; remote := "QmA" |};
     output := None |}.

Definition connectedP2p : P2p :=
  {| host := testHost; peerChan := testPeers;
     streams := {[ "QmA"%string := streamToA ]};
     Logger := Some [] |}.

End Fixtures.

(** * Properties *)

(** ** The hash functions agree with the published test vectors *)

Example sha256_abc :
  Sha256.Sum256 (bytes_of_string "abc")
  = hex 0xba7816bf8f01cfea414140de5dae2223b00361a396177a9cb410ff61f20015ad.
Proof. vm_compute. reflexivity. Qed.

Example sha256_empty :
  Sha256.Sum256 []
  = hex 0xe3b0c44298fc1c149afbf4c8996fb92427ae41e4649b934ca495991b7852b855.
Proof. vm_compute. reflexivity. Qed.

Example sha256_two_blocks :
  Sha256.Sum256 (bytes_of_string
    "abcdbcdecdefdefgefghfghighijhijkijkljklmklmnlmnomnopnopq")
  = hex 0x248d6a61d20638b8e5c026930c3e6039a33ce45964ff2167f6ecedd419db06c1.
Proof. vm_compute. reflexivity. Qed.

Example hmac_rfc4231_case2 :
  Hmac.Sum (bytes_of_string "Jefe")
           (bytes_of_string "what do ya want for nothing?")
  = hex 0x5bdcc146bf60754e6a042426089575c75a003f089d2739839dec58b964ec3843.
Proof. vm_compute. reflexivity. Qed.

(** A key longer than the block size is hashed before use. *)
Example hmac_long_key :
  Hmac.Sum (repeat "k"%byte 100) (bytes_of_string "long key message")
  = hex 0x2206307199b2c74b4ba3c86def2864db041962d763b2236b6ef54a175377af22.
Proof. vm_compute. reflexivity. Qed.

Lemma Sum256_length data : length (Sha256.Sum256 data) = Sha256.Size.
Proof. reflexivity. Qed.

Lemma Hmac_Sum_length key msg : length (Hmac.Sum key msg) = 32%nat.
Proof. apply Sum256_length. Qed.

(** ** The order service *)

Import Service Fixtures.

Section OrderServiceProperties.

Context {S P : Type}.
Context `{!Storage S, !P2p P}.
Context `{!Stringer CreateRequest, !Stringer Timestamp, !Message Order}.

Implicit Types (s : OrderService S P) (st : S).
Implicit Types (now : Timestamp).

(** [Create] returns only along one path: the order was encoded, a store is
    registered and it accepted the record. *)
Lemma Create_Return s now in_ resp err s' :
  Create s now in_ = (Return (resp, err), s') ->
  exists st data st',
    storage s = Some st
    /\ Marshal (new_order in_ now) = Ok data
    /\ Put (order_id in_ now) data st = (None, st')
    /\ s' = {| storage := Some st'; p2p := p2p s |}
    /\ resp = {| CreatedOrder := Some (new_order in_ now); Error := None |}
    /\ err = None.
Proof.
  unfold Create. intros H.
  destruct (Marshal (new_order in_ now)) as [data|e]; [|discriminate].
  destruct (storage s) as [st|]; [|discriminate].
  destruct (Put (order_id in_ now) data st) as [[e|] st'] eqn:HPut;
    [discriminate|].
  injection H as <- <- <-. exists st, data, st'. repeat split; auto.
Qed.

(** And along that path it does return. *)
Lemma Create_succeeds s st now in_ data st' :
  storage s = Some st ->
  Marshal (new_order in_ now) = Ok data ->
  Put (order_id in_ now) data st = (None, st') ->
  Create s now in_
  = (Return ({| CreatedOrder := Some (new_order in_ now); Error := None |}, None),
     {| storage := Some st'; p2p := p2p s |}).
Proof.
  intros Hs Hm Hp. unfold Create. rewrite Hm, Hs, Hp. reflexivity.
Qed.

Lemma order_id_deterministic in1 in2 now1 now2 :
  String_ in1 = String_ in2 -> String_ now1 = String_ now2 ->
  order_id in1 now1 = order_id in2 now2.
Proof. unfold order_id. intros -> ->. reflexivity. Qed.

(** C1 (the code departs from it). The id of the order that [Create]
    returns is the HMAC-SHA256 of the text of the request followed by the
    text of the creation timestamp, under a key that is no secret of the
    node: it is the constant written in the source, the same on every
    node. Two calls whose requests have the same text and whose timestamps
    have the same text return the same id, on whatever nodes they run. *)
Theorem Create_id_is_keyed_hmac :
  (forall s now in_ resp err s',
      Create s now in_ = (Return (resp, err), s') ->
      Id <$> CreatedOrder resp
      = Some (Hmac.Sum (bytes_of_string "mysecret")
                (bytes_of_string (String_ in_) ++ bytes_of_string (String_ now))))
  /\ (forall s1 s2 now1 now2 in1 in2 resp1 resp2 err1 err2 s1' s2',
         String_ in1 = String_ in2 -> String_ now1 = String_ now2 ->
         Create s1 now1 in1 = (Return (resp1, err1), s1') ->
         Create s2 now2 in2 = (Return (resp2, err2), s2') ->
         Id <$> CreatedOrder resp1 = Id <$> CreatedOrder resp2).
Proof.
  split.
  - intros s now in_ resp err s' H.
    apply Create_Return in H as (st & data & st' & _ & _ & _ & _ & -> & _).
    reflexivity.
  - intros s1 s2 now1 now2 in1 in2 resp1 resp2 err1 err2 s1' s2' Hin Hnow H1 H2.
    apply Create_Return in H1 as (? & ? & ? & _ & _ & _ & _ & -> & _).
    apply Create_Return in H2 as (? & ? & ? & _ & _ & _ & _ & -> & _).
    simpl. rewrite (order_id_deterministic in1 in2 now1 now2) by assumption.
    reflexivity.
Qed.

(** C3 (the code departs from it). When the store refuses the record,
    [Create] does not return an error to its caller: it panics with the
    error of the store. *)
Theorem Create_panics_when_Put_fails s st now in_ data err st' :
  storage s = Some st ->
  Marshal (new_order in_ now) = Ok data ->
  Put (order_id in_ now) data st = (Some err, st') ->
  Create s now in_ = (Panic err, {| storage := Some st'; p2p := p2p s |}).
Proof.
  intros Hs Hm Hp. unfold Create. rewrite Hm, Hs, Hp. reflexivity.
Qed.

(** [Create] panics as well when the order cannot be encoded or when no
    store was registered; it never returns an error value. *)
Lemma Create_never_returns_an_error s now in_ resp err s' :
  Create s now in_ = (Return (resp, err), s') ->
  err = None /\ Error resp = None.
Proof.
  intros H. apply Create_Return in H as (? & ? & ? & _ & _ & _ & _ & -> & ->).
  split; reflexivity.
Qed.

(** Under the key layout of the spec, the key of an order is never its
    bare id. *)
Lemma getOrderStorageKey_not_the_id (OrderPrefix channelID orderID : bytes) :
  OrderPrefix ++ channelID <> [] ->
  getOrderStorageKey OrderPrefix channelID orderID <> orderID.
Proof.
  intros Hne Heq. apply Hne. unfold getOrderStorageKey in Heq.
  apply (f_equal length) in Heq. rewrite !length_app in Heq.
  destruct (OrderPrefix ++ channelID) eqn:E; [reflexivity|].
  apply (f_equal length) in E. rewrite length_app in E. simpl in E. lia.
Qed.

(** C8 (the code departs from it). After a [Create] that returned,
    [GetOrder] for the channel and the id of the returned order does not
    return that order: [Create] wrote the record under the bare id, so
    that the key of the order in the channel holds what it held before;
    when that was nothing, [GetOrder] returns the error of the store for
    an absent key. This holds on every store whose [Put] leaves the other
    keys alone. *)
Theorem Create_then_GetOrder_finds_no_record
    (OrderPrefix channelID : bytes) s st now in_ resp err s' e :
  (forall st key value st' key',
      Put key value st = (None, st') -> key' <> key ->
      Get key' st' = Get key' st) ->
  OrderPrefix ++ channelID <> [] ->
  storage s = Some st ->
  Get (getOrderStorageKey OrderPrefix channelID (order_id in_ now)) st = Err e ->
  Create s now in_ = (Return (resp, err), s') ->
  exists order,
    CreatedOrder resp = Some order
    /\ GetOrder OrderPrefix s' channelID (Id order) = Return (None, Some e).
Proof.
  intros Hframe Hne Hs Habsent Hc.
  apply Create_Return in Hc as (st0 & data & st' & Hs0 & _ & Hp & -> & -> & _).
  rewrite Hs in Hs0. injection Hs0 as <-.
  exists (new_order in_ now). split; [reflexivity|].
  unfold GetOrder. cbn [storage Id new_order].
  rewrite (Hframe _ _ _ _ _ Hp
             (getOrderStorageKey_not_the_id _ _ _ Hne)), Habsent.
  reflexivity.
Qed.

(** C9 (the code departs from it). [Create] writes the record with one
    [Put] whose key is the id of the order alone, without prefix and
    without channel, and makes no other change to the store. *)
Theorem Create_stores_under_order_id s st now in_ data :
  storage s = Some st ->
  Marshal (new_order in_ now) = Ok data ->
  storage (snd (Create s now in_))
  = Some (snd (Put (Id (new_order in_ now)) data st)).
Proof.
  intros Hs Hm. unfold Create. rewrite Hm, Hs. cbn [Id new_order].
  destruct (Put (order_id in_ now) data st) as [[e|] st']; reflexivity.
Qed.

(** [Lock] and [Unlock] acknowledge every request and change nothing. *)
Lemma Lock_is_a_stub s in_ :
  Lock s in_ = (Return ({| GenericResponse_Error := None |}, None), s).
Proof. reflexivity. Qed.

Lemma Unlock_is_a_stub s in_ :
  Unlock s in_ = (Return ({| GenericResponse_Error := None |}, None), s).
Proof. reflexivity. Qed.

(** C2 (the code departs from it). After [Create] returned an order,
    [Lock] for its id acknowledges the request and leaves the service as it
    was: the order stays OPEN and unsigned, nothing is written to the store
    and nothing is handed to the network service. *)
Theorem Lock_leaves_the_order_open s now in_ resp err s1 :
  Create s now in_ = (Return (resp, err), s1) ->
  exists order,
    CreatedOrder resp = Some order
    /\ State_ order = State_OPEN
    /\ Signature order = []
    /\ Lock s1 {| GetId := Id order |}
       = (Return ({| GenericResponse_Error := None |}, None), s1).
Proof.
  intros H.
  apply Create_Return in H as (? & ? & ? & _ & _ & _ & _ & -> & _).
  exists (new_order in_ now). repeat split.
Qed.

End OrderServiceProperties.

(** *** The order service on the in-memory store *)

Lemma Create_testOrder :
  Create testService testNow testOrder = (Return (testResponse, None), testStored).
Proof.
  unfold testService.
  erewrite Create_succeeds; [reflexivity | reflexivity | reflexivity |].
  cbn [Put Db.Store_Storage Db.store_Put Db.open Db.fault Db.db].
  rewrite insert_empty. reflexivity.
Qed.

Lemma Create_testOrder_again :
  Create testStored testNow testOrder = (Return (testResponse, None), testStored).
Proof.
  unfold testStored.
  erewrite Create_succeeds; [reflexivity | reflexivity | reflexivity |].
  cbn [Put Db.Store_Storage Db.store_Put Db.open Db.fault Db.db].
  rewrite insert_singleton_eq. reflexivity.
Qed.

(** The id of the order of the tests, as any HMAC-SHA256 implementation
    computes it from the same key and text. *)
Lemma order_id_testOrder :
  order_id testOrder testNow
  = hex 0xd746c4b3659d13ca0984cb1481ccfe5429739ff0d60a1e7bd8947e123afa49a2.
Proof. vm_compute. reflexivity. Qed.

(** Two calls in a row with the request and the timestamp of the tests. *)
Lemma Create_id_is_keyed_hmac_witness :
  exists resp1 resp2 s1 s2,
    Create testService testNow testOrder = (Return (resp1, None), s1)
    /\ Create s1 testNow testOrder = (Return (resp2, None), s2)
    /\ Id <$> CreatedOrder resp1
       = Some (Hmac.Sum (bytes_of_string "mysecret")
                 (bytes_of_string (String_ testOrder)
                  ++ bytes_of_string (String_ testNow)))
    /\ Id <$> CreatedOrder resp1 = Id <$> CreatedOrder resp2.
Proof.
  exists testResponse, testResponse, testStored, testStored.
  split; [exact Create_testOrder|].
  split; [exact Create_testOrder_again|].
  split.
  - exact (proj1 Create_id_is_keyed_hmac _ _ _ _ _ _ Create_testOrder).
  - exact (proj2 Create_id_is_keyed_hmac _ _ _ _ _ _ _ _ _ _ _ _
             eq_refl eq_refl Create_testOrder Create_testOrder_again).
Defined.

(** [Create] on a service whose database was closed. *)
Lemma Create_panics_when_Put_fails_witness :
  Create closedService testNow testOrder
  = (Panic "leveldb: closed", closedService).
Proof.
  exact (Create_panics_when_Put_fails closedService _ testNow testOrder
           testRecord _ _ eq_refl eq_refl eq_refl).
Defined.

(** The store reads back what was written. *)
Lemma Store_Get_Put (st : Db.Store) key value st' :
  Put key value st = (None, st') -> Get key st' = Ok value.
Proof.
  cbn [Put Get Db.Store_Storage]. unfold Db.store_Put, Db.store_Get.
  destruct (Db.fault st); [discriminate|]. intros [= <-].
  cbn [Db.db]. rewrite lookup_insert_eq. reflexivity.
Qed.

Lemma decode_testRecord : decode testRecord = Some (new_order testOrder testNow).
Proof. vm_compute. reflexivity. Qed.

Lemma Store_Get_other (st : Db.Store) key value st' key' :
  Put key value st = (None, st') -> key' <> key -> Get key' st' = Get key' st.
Proof.
  cbn [Put Get Db.Store_Storage]. unfold Db.store_Put, Db.store_Get.
  destruct (Db.fault st); [discriminate|]. intros [= <-] Hne.
  cbn [Db.db]. rewrite lookup_insert_ne by congruence. reflexivity.
Qed.

(** [Create] and then [GetOrder] in the channel of the tests, on the
    in-memory store. *)
Lemma Create_then_GetOrder_finds_no_record_witness :
  exists order,
    CreatedOrder testResponse = Some order
    /\ GetOrder (bytes_of_string "order-") testStored
         (bytes_of_string "BTC,ETH") (Id order)
       = Return (None, Some "leveldb: not found").
Proof.
  refine (Create_then_GetOrder_finds_no_record (bytes_of_string "order-")
            (bytes_of_string "BTC,ETH") testService (Db.open ∅) testNow
            testOrder _ _ _ "leveldb: not found" Store_Get_other _ eq_refl
            eq_refl Create_testOrder).
  discriminate.
Defined.

(** The one [Put] of [Create] on the empty in-memory store. *)
Lemma Create_stores_under_order_id_witness :
  storage (snd (Create testService testNow testOrder))
  = Some (snd (Put (Id (new_order testOrder testNow)) testRecord (Db.open ∅))).
Proof.
  exact (Create_stores_under_order_id testService _ testNow testOrder
           testRecord eq_refl eq_refl).
Defined.

(** C9, against the claim as stated: the store of the tests holds, after
    [Create], one record under the id of the order, and none under a key
    made of a prefix and a channel before the id. *)
Lemma Create_key_is_the_bare_id :
  Db.db <$> storage (snd (Create testService testNow testOrder))
  = Some {[ order_id testOrder testNow := testRecord ]}
  /\ (forall OrderPrefix channelID,
         OrderPrefix ++ channelID <> [] ->
         storage (snd (Create testService testNow testOrder))
           ≫= (fun st => Db.db st
                 !! getOrderStorageKey OrderPrefix channelID
                      (order_id testOrder testNow))
         = None).
Proof.
  rewrite Create_testOrder. cbn [snd storage testStored fmap option_fmap
    option_map mbind option_bind Db.open Db.db].
  split; [reflexivity|].
  intros OrderPrefix channelID Hne. apply lookup_singleton_ne.
  intros Heq. apply Hne. unfold getOrderStorageKey in Heq.
  apply (f_equal length) in Heq. rewrite !length_app in Heq.
  destruct (OrderPrefix ++ channelID) eqn:E; [reflexivity|].
  apply (f_equal length) in E. rewrite length_app in E. simpl in E. lia.
Qed.

(** [Lock] for the order of the tests, right after its creation. *)
Lemma Lock_leaves_the_order_open_witness :
  exists order,
    CreatedOrder testResponse = Some order
    /\ State_ order = State_OPEN
    /\ Signature order = []
    /\ Lock testStored {| GetId := Id order |}
       = (Return ({| GenericResponse_Error := None |}, None), testStored).
Proof.
  exact (Lock_leaves_the_order_open testService testNow testOrder _ _ _
           Create_testOrder).
Defined.

(** On the in-memory store, [Create] adds or replaces the one record under
    the id of the order. *)
Lemma Create_writes_one_record (m : gmap bytes bytes) now in_ :
  Db.db <$> storage (snd (Create
              {| storage := Some (Db.open m); p2p := Some ([] : list WireMessage) |}
              now in_))
  = Some (<[order_id in_ now := encode (new_order in_ now)]> m).
Proof. reflexivity. Qed.

(** The key of [TestOrderStorageKeyPrefixer]. *)
Example getOrderStorageKey_test OrderPrefix :
  getOrderStorageKey OrderPrefix (bytes_of_string "BTC,ETH") (bytes_of_string "ETH")
  = OrderPrefix ++ bytes_of_string "BTC,ETH" ++ bytes_of_string "ETH".
Proof. reflexivity. Qed.

(** ** Broadcast to the discovered peers *)

Import P2pMain.

Section BroadcastProperties.

Context (net : Network).

Implicit Types (host : Host) (peerChan : list AddrInfo) (input : bytes).
Implicit Types (tr : list Event) (s : NetStream).

(** [writeData] adds to the trace a write on its stream, and a flush when
    the write went through. *)
Lemma writeData_trace s input tr :
  snd (writeData net s input tr) = tr ++ [EvWrite s input]
  \/ snd (writeData net s input tr) = tr ++ [EvWrite s input; EvFlush s].
Proof.
  unfold writeData.
  destruct (write_error net tr s input); [left; reflexivity|].
  right. rewrite <- app_assoc.
  destruct (flush_error net _ s); reflexivity.
Qed.

Lemma writeData_Return s input tr u tr' :
  writeData net s input tr = (Return u, tr') ->
  tr' = tr ++ [EvWrite s input; EvFlush s].
Proof.
  unfold writeData.
  destruct (write_error net tr s input); [discriminate|].
  destruct (flush_error net _ s); [discriminate|].
  intros [= _ <-]. rewrite <- app_assoc. reflexivity.
Qed.

Lemma writeData_succeeds s input tr :
  write_error net tr s input = None ->
  flush_error net (tr ++ [EvWrite s input]) s = None ->
  writeData net s input tr = (Return tt, tr ++ [EvWrite s input; EvFlush s]).
Proof.
  intros Hw Hf. unfold writeData. rewrite Hw, Hf, <- app_assoc. reflexivity.
Qed.

(** The trace only grows, and every event [sendToPeers] adds reaches out to
    a peer other than the node itself. *)
Lemma sendToPeers_trace host peerChan input tr :
  exists new,
    snd (sendToPeers net host peerChan input tr) = tr ++ new
    /\ Forall (fun e => target e <> Some (host_ID host)) new.
Proof.
  revert tr. induction peerChan as [|peer peerChan IH]; intros tr; simpl.
  - exists []. rewrite app_nil_r. split; [reflexivity | constructor].
  - destruct (decide (ID peer = host_ID host)) as [Heq|Hne]; [apply IH|].
    assert (Hpeer : forall err, target (EvNewStream (ID peer) err)
                                <> Some (host_ID host))
      by (intros err [= H]; contradiction).
    destruct (dial net tr (ID peer)) as [n|err].
    + set (s := {| sid := n; remote := ID peer |}).
      assert (Hs : forall e, e = EvWrite s input \/ e = EvFlush s ->
                             target e <> Some (host_ID host))
        by (intros e [-> | ->] [= H]; contradiction).
      destruct (writeData net s input (tr ++ [EvNewStream (ID peer) None]))
        as [[u|v] tr'] eqn:Hw.
      * apply writeData_Return in Hw as ->.
        destruct (IH ((tr ++ [EvNewStream (ID peer) None])
                        ++ [EvWrite s input; EvFlush s])) as (new & -> & Hnew).
        exists (EvNewStream (ID peer) None :: EvWrite s input :: EvFlush s :: new).
        split; [rewrite <- !app_assoc; reflexivity|].
        repeat constructor; auto.
      * pose proof (writeData_trace s input (tr ++ [EvNewStream (ID peer) None]))
          as Htr. rewrite Hw in Htr. simpl in Htr |- *.
        destruct Htr as [-> | ->]; rewrite <- app_assoc; eexists;
          (split; [reflexivity|]); repeat constructor; auto.
    + destruct (IH (tr ++ [EvNewStream (ID peer) (Some err)]))
        as (new & -> & Hnew).
      exists (EvNewStream (ID peer) (Some err) :: new).
      split; [rewrite <- app_assoc; reflexivity|].
      constructor; auto.
Qed.

(** C4. In a broadcast to the discovered peers, no stream is requested to
    the node's own identity, and nothing is written to, flushed on or
    closed on a stream whose remote peer is the node itself, whether or not
    the node appears among the discovered peers. *)
Theorem sendToPeers_never_reaches_self host peerChan input :
  Forall (fun e => target e <> Some (host_ID host))
         (snd (sendToPeers net host peerChan input [])).
Proof.
  destruct (sendToPeers_trace host peerChan input []) as (new & -> & Hnew).
  exact Hnew.
Qed.

(** A run that returned can be continued: the peers that follow are
    served from the trace it left. *)
Lemma sendToPeers_app host l1 l2 input tr u tr1 :
  sendToPeers net host l1 input tr = (Return u, tr1) ->
  sendToPeers net host (l1 ++ l2) input tr = sendToPeers net host l2 input tr1.
Proof.
  revert tr. induction l1 as [|peer l1 IH]; intros tr; simpl.
  - intros [= _ <-]. reflexivity.
  - destruct (decide (ID peer = host_ID host)) as [Heq|Hne]; [apply IH|].
    destruct (dial net tr (ID peer)) as [n|err]; [|apply IH].
    destruct (writeData net _ input _) as [[?|?] tr']; [apply IH|discriminate].
Qed.

Lemma sendToPeers_when_writes_succeed host peerChan input tr :
  (forall tr s data, write_error net tr s data = None) ->
  (forall tr s, flush_error net tr s = None) ->
  exists tr' reached,
    sendToPeers net host peerChan input tr = (Return tt, tr')
    /\ dialled tr'
       = dialled tr ++ filter (fun p => p <> host_ID host) (ID <$> peerChan)
    /\ opened tr' = opened tr ++ reached
    /\ written tr' = written tr ++ reached.
Proof.
  intros Hw Hf. revert tr.
  induction peerChan as [|peer peerChan IH]; intros tr.
  - exists tr, []. rewrite !app_nil_r. repeat split.
  - cbn [sendToPeers fmap list_fmap].
    destruct (decide (ID peer = host_ID host)) as [Heq|Hne].
    { rewrite filter_cons_False by (intros H; apply H; exact Heq). apply IH. }
    rewrite filter_cons_True by exact Hne.
    destruct (dial net tr (ID peer)) as [n|err].
    + rewrite writeData_succeeds by auto.
      destruct (IH ((tr ++ [EvNewStream (ID peer) None])
                      ++ [EvWrite {| sid := n; remote := ID peer |} input;
                          EvFlush {| sid := n; remote := ID peer |}]))
        as (tr' & reached & -> & Hd & Ho & Hwr).
      exists tr', (ID peer :: reached). split; [reflexivity|].
      unfold dialled, opened, written in *. rewrite !omap_app in *.
      cbn in *. rewrite !app_nil_r in *. rewrite <- !app_assoc in *.
      auto.
    + destruct (IH (tr ++ [EvNewStream (ID peer) (Some err)]))
        as (tr' & reached & -> & Hd & Ho & Hwr).
      exists tr', reached. split; [reflexivity|].
      unfold dialled, opened, written in *. rewrite !omap_app in *.
      cbn in *. rewrite !app_nil_r in *. rewrite <- !app_assoc in *.
      auto.
Qed.

(** C6 (as the code has it). A peer to which no stream can be opened is
    skipped: as long as no write and no flush fails, the broadcast returns
    to its caller, a stream is requested to every discovered peer other
    than the node itself, whatever happened with the peers before it, and
    the message is written to every peer whose stream was opened. A write
    or a flush that fails is not contained: [writeData] panics, and the
    peers that follow are not attempted. *)
Theorem sendToPeers_skips_unreachable_peers host peerChan input :
  ((forall tr s data, write_error net tr s data = None) ->
   (forall tr s, flush_error net tr s = None) ->
   fst (sendToPeers net host peerChan input []) = Return tt
   /\ dialled (snd (sendToPeers net host peerChan input []))
      = filter (fun p => p <> host_ID host) (ID <$> peerChan)
   /\ written (snd (sendToPeers net host peerChan input []))
      = opened (snd (sendToPeers net host peerChan input [])))
  /\ (forall before peer after_ u tr n err tr',
         peerChan = before ++ peer :: after_ ->
         sendToPeers net host before input [] = (Return u, tr) ->
         ID peer <> host_ID host ->
         dial net tr (ID peer) = Ok n ->
         writeData net {| sid := n; remote := ID peer |} input
           (tr ++ [EvNewStream (ID peer) None]) = (Panic err, tr') ->
         sendToPeers net host peerChan input [] = (Panic err, tr')
         /\ dialled tr' = dialled tr ++ [ID peer]).
Proof.
  split.
  - intros Hw Hf.
    destruct (sendToPeers_when_writes_succeed host peerChan input [] Hw Hf)
      as (tr' & reached & -> & Hd & Ho & Hwr).
    cbn [fst snd]. split; [reflexivity|]. split; [exact Hd|].
    rewrite Ho, Hwr. reflexivity.
  - intros before peer after_ u tr n err tr' -> Hrun Hne Hdial Hwrite.
    rewrite (sendToPeers_app _ _ _ _ _ _ _ Hrun). cbn [sendToPeers].
    destruct (decide (ID peer = host_ID host)) as [Heq|_]; [contradiction|].
    rewrite Hdial, Hwrite. split; [reflexivity|].
    pose proof (writeData_trace {| sid := n; remote := ID peer |} input
                  (tr ++ [EvNewStream (ID peer) None])) as Htr.
    rewrite Hwrite in Htr. cbn [snd] in Htr. unfold dialled.
    destruct Htr as [-> | ->]; rewrite !omap_app; cbn;
      rewrite !app_nil_r; reflexivity.
Qed.

End BroadcastProperties.

(** *** Broadcasts on a network of the examples *)

(** The node itself and an unreachable peer among the discovered peers. *)
Example sendToPeers_reaches_no_self_example :
  sendToPeers flakyNet testHost testPeers testMessage []
  = (Return tt,
     [EvNewStream "QmA" None;
      EvWrite {| sid := 0; remote := "QmA" |} testMessage;
      EvFlush {| sid := 0; remote := "QmA" |};
      EvNewStream "QmDown" (Some "dial backoff");
      EvNewStream "QmB" None;
      EvWrite {| sid := 4; remote := "QmB" |} testMessage;
      EvFlush {| sid := 4; remote := "QmB" |}]).
Proof. vm_compute. reflexivity. Qed.

(** A broadcast past a peer that cannot be reached, and one onto a peer
    the write to which fails. *)
Lemma sendToPeers_skips_unreachable_peers_witness :
  (fst (sendToPeers flakyNet testHost testPeers testMessage []) = Return tt
   /\ dialled (snd (sendToPeers flakyNet testHost testPeers testMessage []))
      = ["QmA"; "QmDown"; "QmB"]
   /\ written (snd (sendToPeers flakyNet testHost testPeers testMessage []))
      = opened (snd (sendToPeers flakyNet testHost testPeers testMessage [])))
  /\ (sendToPeers brokenNet testHost
        [peer "QmBroken"; peer "QmB"] testMessage []
      = (Panic "stream reset",
         [EvNewStream "QmBroken" None;
          EvWrite {| sid := 0; remote := "QmBroken" |} testMessage])
      /\ dialled [EvNewStream "QmBroken" None;
                  EvWrite {| sid := 0; remote := "QmBroken" |} testMessage]
         = dialled [] ++ ["QmBroken"]).
Proof.
  split.
  - exact (proj1 (sendToPeers_skips_unreachable_peers flakyNet testHost
                    testPeers testMessage)
             (fun _ _ _ => eq_refl) (fun _ _ => eq_refl)).
  - refine (proj2 (sendToPeers_skips_unreachable_peers brokenNet testHost
                     [peer "QmBroken"; peer "QmB"] testMessage)
              [] (peer "QmBroken") [peer "QmB"] tt [] 0%nat "stream reset" _
              eq_refl eq_refl _ eq_refl eq_refl).
    vm_compute. discriminate.
Defined.

(** C6, against the claim as stated: a write that fails for one peer makes
    the broadcast panic, and no stream is requested to the peer after it. *)
Lemma sendToPeers_write_failure_aborts :
  sendToPeers brokenNet testHost [peer "QmBroken"; peer "QmB"] testMessage []
  = (Panic "stream reset",
     [EvNewStream "QmBroken" None;
      EvWrite {| sid := 0; remote := "QmBroken" |} testMessage])
  /\ dialled (snd (sendToPeers brokenNet testHost
                     [peer "QmBroken"; peer "QmB"] testMessage []))
     = ["QmBroken"].
Proof. split; vm_compute; reflexivity. Qed.

(** ** The stream layer *)

Section StreamProperties.

Context (net : Network).
Context (E : string -> option error -> error).
Context (IsEmpty : option error -> bool).
Context {R : Type} `{!Receiver R}.

Implicit Types (reader : Reader) (receiver : option R) (tr : list Event).
Implicit Types (data : bytes).

(** What [ReadBytes] returns without error is a frame. *)
Lemma split_delim_frame delim p line rest :
  split_delim delim p = Some (line, rest) ->
  p = line ++ rest /\ exists body, line = body ++ [delim] /\ delim ∉ body.
Proof.
  revert line rest. induction p as [|b p IH]; intros line rest; simpl.
  - discriminate.
  - destruct (decide (b = delim)) as [->|Hne].
    + intros [= <- <-]. split; [reflexivity|]. exists [].
      split; [reflexivity | apply not_elem_of_nil].
    + destruct (split_delim delim p) as [[l r]|]; [|discriminate].
      intros [= <- <-]. destruct (IH l r eq_refl) as (-> & body & -> & Hb).
      split; [reflexivity|]. exists (b :: body). split; [reflexivity|].
      rewrite not_elem_of_cons. split; [congruence | exact Hb].
Qed.

Lemma ReadBytes_frame reader data reader' :
  ReadBytes newline reader = ((data, None), reader') ->
  pending reader = data ++ pending reader' /\ is_frame data.
Proof.
  unfold ReadBytes.
  destruct (split_delim newline (pending reader)) as [[l r]|] eqn:Hs;
    [|discriminate].
  intros [= <- <-]. apply split_delim_frame in Hs. exact Hs.
Qed.

Lemma is_frame_nonempty data : is_frame data -> data <> [].
Proof. intros (body & -> & _). destruct body; discriminate. Qed.

Lemma ReadBytes_error reader data err reader' :
  ReadBytes newline reader = ((data, Some err), reader') ->
  split_delim newline (pending reader) = None /\ err = failure reader.
Proof.
  unfold ReadBytes.
  destruct (split_delim newline (pending reader)) as [[l r]|];
    [discriminate|].
  intros [= _ <- _]. split; reflexivity.
Qed.


(** On a frame that is not empty the turn neither panics nor closes. *)
Lemma receiveStream_frame_nonempty stream_ receiver data tr :
  data <> [] ->
  match receiveStream_frame E IsEmpty stream_ receiver data tr with
  | (Continue, (receiver', tr')) =>
      tr' = tr ++ [EvReceive data] /\ receiver' <> None
  | (Done r, (_, tr')) =>
      returns r = true /\ (tr' = tr \/ tr' = tr ++ [EvReceive data])
  end.
Proof.
  intros Hne. unfold receiveStream_frame.
  destruct receiver as [rc|]; [|split; [reflexivity | left; reflexivity]].
  destruct (Receive data rc) as [err rc'].
  destruct (negb (IsEmpty err)).
  - split; [reflexivity | right; reflexivity].
  - destruct data; [contradiction|]. split; [reflexivity | discriminate].
Qed.

(** The frames [receiveStream] hands over are the leading frames of the
    stream, and it neither panics nor closes anything. *)
Lemma receiveStream_run stream_ reader receiver tr :
  exists frames rest,
    snd (snd (receiveStream E IsEmpty stream_ reader receiver tr))
    = tr ++ (EvReceive <$> frames)
    /\ pending reader = concat frames ++ rest
    /\ Forall is_frame frames
    /\ returns (fst (receiveStream E IsEmpty stream_ reader receiver tr)) = true.
Proof.
  funelim (receiveStream E IsEmpty stream_ reader receiver tr).
  - exists [], (pending reader). cbn. rewrite app_nil_r.
    repeat split. constructor.
  - pose proof (ReadBytes_frame _ _ _ Heq) as (Hp & Hfr).
    pose proof (receiveStream_frame_nonempty stream_ receiver data tr
                  (is_frame_nonempty _ Hfr)) as Hturn.
    rewrite Heq0 in Hturn. destruct Hturn as (-> & _).
    destruct H as (frames & rest & Htr & Hp' & Hfrs & Hret).
    exists (data :: frames), rest. rewrite Htr, Hp, Hp'.
    cbn [fmap list_fmap concat]. rewrite <- !app_assoc.
    repeat split; [constructor|]; assumption.
  - pose proof (ReadBytes_frame _ _ _ Heq) as (Hp & Hfr).
    pose proof (receiveStream_frame_nonempty stream_ receiver data tr
                  (is_frame_nonempty _ Hfr)) as Hturn.
    rewrite Heq0 in Hturn. destruct st as [receiver' tr'].
    destruct Hturn as (Hret & [-> | ->]).
    + exists [], (pending reader). cbn. rewrite app_nil_r.
      repeat split; [constructor | assumption].
    + exists [data], (pending reader'). cbn. rewrite app_nil_r.
      repeat split; [assumption | | assumption].
      constructor; [assumption | constructor].
Qed.

(** When the stream ends before a newline, [receiveStream] returns the
    error of the stream, wrapped, and leaves receiver and trace alone. *)
Lemma receiveStream_read_error stream_ reader receiver tr :
  split_delim newline (pending reader) = None ->
  receiveStream E IsEmpty stream_ reader receiver tr
  = (Return (Some (E "Reading bytes from stream" (Some (failure reader)))),
     (receiver, tr)).
Proof.
  intros Hs. funelim (receiveStream E IsEmpty stream_ reader receiver tr).
  - pose proof (ReadBytes_error _ _ _ _ e) as (_ & Herr). rewrite Herr.
    reflexivity.
  - pose proof Heq as Hr. unfold ReadBytes in Hr. rewrite Hs in Hr.
    discriminate.
  - pose proof Heq as Hr. unfold ReadBytes in Hr. rewrite Hs in Hr.
    discriminate.
Qed.

Lemma ReadBytes_failure delim reader :
  failure (snd (ReadBytes delim reader)) = failure reader.
Proof.
  unfold ReadBytes.
  destruct (split_delim delim (pending reader)) as [[l r]|]; reflexivity.
Qed.

(** [readData] leaves its loop in one way only: by the panic on the error
    the stream ends with. *)
Lemma readData_panics reader out :
  fst (readData reader out) = Panic (failure reader).
Proof.
  funelim (readData reader out).
  - pose proof (ReadBytes_error _ _ _ _ e) as (_ & Herr). rewrite Herr.
    reflexivity.
  - pose proof (ReadBytes_frame _ _ _ e) as (_ & Hfr).
    apply is_frame_nonempty in Hfr. contradiction.
  - rewrite H. pose proof (ReadBytes_failure newline reader) as Hf.
    rewrite Heq in Hf. cbn [snd] in Hf. rewrite Hf. reflexivity.
Qed.

(** When the receiver refuses a frame, [receiveStream] returns the error
    of the receiver, wrapped. *)
Lemma receiveStream_receiver_error stream_ reader (rc : R) tr
    data reader' err rc' :
  ReadBytes newline reader = ((data, None), reader') ->
  Receive data rc = (err, rc') ->
  IsEmpty err = false ->
  receiveStream E IsEmpty stream_ reader (Some rc) tr
  = (Return (Some (E "Passing data from stream to receiver" err)),
     (Some rc', tr ++ [EvReceive data])).
Proof.
  intros Hread Hrecv Herr.
  funelim (receiveStream E IsEmpty stream_ reader (Some rc) tr);
    forget_inspect.
  - rewrite Hread in e. discriminate.
  - rewrite Hread in Heq. injection Heq as <- <-.
    unfold receiveStream_frame in Heq0. rewrite Hrecv, Herr in Heq0.
    discriminate.
  - rewrite Hread in Heq. injection Heq as <- <-.
    unfold receiveStream_frame in Heq0. rewrite Hrecv, Herr in Heq0.
    cbn [negb] in Heq0. injection Heq0 as <- <-. reflexivity.
Qed.


Lemma closes_EvReceive (frames : list bytes) :
  closes (EvReceive <$> frames) = [].
Proof. induction frames as [|f frames IH]; [reflexivity | exact IH]. Qed.

(** [receiveStream] closes no stream: its call of [Close] stands behind a
    test for an empty frame, and no frame is empty. *)
Lemma receiveStream_never_closes stream_ reader receiver tr :
  closes (snd (snd (receiveStream E IsEmpty stream_ reader receiver tr)))
  = closes tr.
Proof.
  destruct (receiveStream_run stream_ reader receiver tr)
    as (frames & rest & -> & _).
  unfold closes. rewrite omap_app. fold (closes (EvReceive <$> frames)).
  rewrite closes_EvReceive, app_nil_r. reflexivity.
Qed.

(** C5 (as the code has it). An error met by a read loop of the stream
    layer ends that loop and nothing else: when the stream ends before a
    newline, or when the receiver refuses a frame, [receiveStream] returns
    the wrapped error to the goroutine that ran it, and no input makes it
    panic. The read loop of the first transport, [readData], panics on the
    error the stream ends with. *)
Theorem read_error_ends_the_read_loop stream_ reader receiver tr out :
  (split_delim newline (pending reader) = None ->
   receiveStream E IsEmpty stream_ reader receiver tr
   = (Return (Some (E "Reading bytes from stream" (Some (failure reader)))),
      (receiver, tr)))
  /\ (forall rc data reader' err rc',
         receiver = Some rc ->
         ReadBytes newline reader = ((data, None), reader') ->
         Receive data rc = (err, rc') ->
         IsEmpty err = false ->
         receiveStream E IsEmpty stream_ reader receiver tr
         = (Return (Some (E "Passing data from stream to receiver" err)),
            (Some rc', tr ++ [EvReceive data])))
  /\ returns (fst (receiveStream E IsEmpty stream_ reader receiver tr)) = true
  /\ fst (readData reader out) = Panic (failure reader).
Proof.
  split; [apply receiveStream_read_error|].
  split.
  { intros rc data reader' err rc' -> Hread Hrecv Herr.
    eapply receiveStream_receiver_error; eassumption. }
  split; [|apply readData_panics].
  destruct (receiveStream_run stream_ reader receiver tr)
    as (_ & _ & _ & _ & _ & Hret).
  exact Hret.
Qed.


(** *** Closing a stream by peer identity *)

Implicit Types (p2p : P2p) (peerIDString : string).

(** C7 (the code departs from it). [CloseStream] closes the stream
    registered for the peer and takes it out of the map; a second call for
    the same peer finds no stream and panics on the nil stream of the zero
    value. *)
Theorem CloseStream_twice_panics p2p peerIDString st s tr :
  streams p2p !! peerIDString = Some st ->
  stream st = Some s ->
  exists p2p',
    CloseStream net p2p peerIDString tr
    = (Return (close_error net tr s), (p2p', tr ++ [EvClose s]))
    /\ streams p2p' = delete peerIDString (streams p2p)
    /\ streams p2p' !! peerIDString = None
    /\ CloseStream net p2p' peerIDString (tr ++ [EvClose s])
       = (Panic nil_dereference, (p2p', tr ++ [EvClose s])).
Proof.
  intros Hst Hs.
  exists (with_streams p2p (delete peerIDString (streams p2p))).
  unfold CloseStream. rewrite Hst. simpl (default _ _). rewrite Hs.
  cbn [streams with_streams]. rewrite lookup_delete_eq.
  repeat split.
Qed.

(** [CloseStream] panics whenever no stream is registered for the peer. *)
Lemma CloseStream_unregistered_panics p2p peerIDString tr :
  streams p2p !! peerIDString = None ->
  CloseStream net p2p peerIDString tr = (Panic nil_dereference, (p2p, tr)).
Proof. intros H. unfold CloseStream. rewrite H. reflexivity. Qed.

End StreamProperties.

(** *** The read loops on streams of the examples *)

Example receiveStream_two_frames :
  handleStream E IsEmpty inbound twoFrames (Some {| decoded := [] |}) []
  = (Return (Some "Reading bytes from stream: EOF"),
     (Some {| decoded := [bytes_of_string "ab" ++ [newline];
                          bytes_of_string "cd" ++ [newline]] |},
      [EvReceive (bytes_of_string "ab" ++ [newline]);
       EvReceive (bytes_of_string "cd" ++ [newline])])).
Proof. vm_compute. reflexivity. Qed.

Example receiveStream_after_an_empty_line :
  handleStream E IsEmpty inbound emptyLine (Some {| decoded := [] |}) []
  = (Return (Some ("Passing data from stream to receiver: "
                   +:+ "proto: cannot parse invalid wire-format data")),
     (Some {| decoded := [bytes_of_string "ab" ++ [newline]] |},
      [EvReceive (bytes_of_string "ab" ++ [newline]); EvReceive [newline]])).
Proof. vm_compute. reflexivity. Qed.

Example receiveStream_no_receiver :
  handleStream (R := Decoder) E IsEmpty inbound twoFrames None []
  = (Return (Some "No receiver defined for stream.receiveStream"), (None, [])).
Proof. vm_compute. reflexivity. Qed.

Example ReadBytes_at_end_of_stream :
  ReadBytes newline {| pending := bytes_of_string "cd"; failure := "EOF" |}
  = ((bytes_of_string "cd", Some "EOF"), {| pending := []; failure := "EOF" |}).
Proof. reflexivity. Qed.

(** A stream that ends in the middle of a line, and a receiver that
    refuses an empty line. *)
Lemma read_error_ends_the_read_loop_witness :
  receiveStream E IsEmpty inboundStream eofReader (Some {| decoded := [] |}) []
  = (Return (Some "Reading bytes from stream: EOF"),
     (Some {| decoded := [] |}, []))
  /\ receiveStream E IsEmpty inboundStream
       {| pending := [newline]; failure := "EOF" |}
       (Some {| decoded := [] |}) []
     = (Return (Some ("Passing data from stream to receiver: "
                      +:+ "proto: cannot parse invalid wire-format data")),
        (Some {| decoded := [] |}, [EvReceive [newline]]))
  /\ returns (fst (receiveStream E IsEmpty inboundStream eofReader
                     (Some {| decoded := [] |}) [])) = true
  /\ fst (readData eofReader []) = Panic "EOF".
Proof.
  pose proof (read_error_ends_the_read_loop E IsEmpty inboundStream eofReader
                (Some {| decoded := [] |}) [] []) as (Hread & _ & Hret & Hpanic).
  pose proof (read_error_ends_the_read_loop E IsEmpty inboundStream
                {| pending := [newline]; failure := "EOF" |}
                (Some {| decoded := [] |}) [] []) as (_ & Hrecv & _).
  split; [exact (Hread eq_refl)|].
  split; [exact (Hrecv _ _ _ _ _ eq_refl eq_refl eq_refl eq_refl)|].
  split; [exact Hret | exact Hpanic].
Defined.

(** C5, against the claim as stated: on a stream that ends in the middle
    of a line, the read loop of the stream layer returns and leaves the
    stream unclosed, and the read loop of the first transport panics. *)
Lemma read_error_neither_closes_nor_spares_the_process :
  handleStream E IsEmpty inbound eofReader (Some {| decoded := [] |}) []
  = (Return (Some "Reading bytes from stream: EOF"),
     (Some {| decoded := [] |}, []))
  /\ closes (snd (snd (handleStream E IsEmpty inbound eofReader
                         (Some {| decoded := [] |}) []))) = []
  /\ readData eofReader [] = (Panic "EOF", [Println "Error reading from buffer"]).
Proof. repeat split; vm_compute; reflexivity. Qed.

Example OpenStream_registers :
  OpenStream flakyNet IDFromString testP2p testPeerID []
  = (Return None,
     ({| host := testHost; peerChan := testPeers;
         streams :=
           {[ testPeerID :=
                {| stream := Some {| sid := 0; remote := testPeerID |};
                   input := Some {| sid := 0; remote := testPeerID |};
                   output := None |} ]};
         Logger := Some ["Stream opened with " +:+ testPeerID] |},
      [EvNewStream testPeerID None])).
Proof. reflexivity. Qed.

(** A string that is no peer identity is dialled as the empty identity. *)
Example IDFromString_of_a_name : IDFromString "QmA" = ""%string.
Proof. reflexivity. Qed.

(** Closing twice the stream opened to [QmA]. *)
Lemma CloseStream_twice_panics_witness :
  exists p2p',
    CloseStream flakyNet connectedP2p "QmA" [EvNewStream "QmA" None]
    = (Return None,
       (p2p', [EvNewStream "QmA" None] ++ [EvClose {| sid := 0; remote := "QmA" |}]))
    /\ streams p2p' = delete "QmA"%string (streams connectedP2p)
    /\ streams p2p' !! "QmA"%string = None
    /\ CloseStream flakyNet p2p' "QmA"
         ([EvNewStream "QmA" None] ++ [EvClose {| sid := 0; remote := "QmA" |}])
       = (Panic nil_dereference,
          (p2p', [EvNewStream "QmA" None]
                 ++ [EvClose {| sid := 0; remote := "QmA" |}])).
Proof.
  exact (CloseStream_twice_panics flakyNet connectedP2p "QmA" streamToA
           {| sid := 0; remote := "QmA" |} [EvNewStream "QmA" None]
           (lookup_singleton_eq _ _) eq_refl).
Defined.

(** * Further properties *)

(** ** The order service: what [Create] and [Delete] return and leave
    behind *)

Section OrderLifecycle.

Context {S P : Type}.
Context `{!Storage S, !Interfaces.P2p P}.
Context `{!Stringer CreateRequest, !Stringer Timestamp, !Message Order}.

Implicit Types (s : OrderService S P) (st : S).
Implicit Types (now : Timestamp).

(** X1. The order [Create] returns is OPEN and unsigned, carries the
    timestamp of the call and the terms of the request, and has an id of
    thirty-two bytes; the error results are nil. *)
Theorem Create_returns_an_open_order s now in_ resp err s' :
  Create s now in_ = (Return (resp, err), s') ->
  exists order,
    CreatedOrder resp = Some order
    /\ State_ order = State_OPEN
    /\ Signature order = []
    /\ Created order = now
    /\ Asset order = in_Asset in_
    /\ CounterAsset order = in_CounterAsset in_
    /\ Amount order = in_Amount in_
    /\ Price order = in_Price in_
    /\ length (Id order) = 32%nat
    /\ err = None
    /\ Error resp = None.
Proof.
  intros Hc.
  apply Create_Return in Hc as (? & ? & ? & _ & _ & _ & _ & -> & ->).
  exists (new_order in_ now). cbn [CreatedOrder Error new_order State_
    Signature Created Asset CounterAsset Amount Price Id].
  repeat split.
Qed.

(** X2. Neither [Create] nor [Delete] hands anything to the network
    service, whether they return or panic: the order is stored or removed
    locally and not broadcast. *)
Theorem Create_and_Delete_do_not_broadcast s now in_ del :
  p2p (snd (Create s now in_)) = p2p s
  /\ p2p (snd (Delete s del)) = p2p s.
Proof.
  split.
  - unfold Create. destruct (Marshal (new_order in_ now)); [|reflexivity].
    destruct (storage s); [|reflexivity].
    destruct (Put _ _ _) as [[?|] ?]; reflexivity.
  - unfold Delete. destruct (storage s); [|reflexivity].
    destruct (Interfaces.Delete _ _) as [[?|] ?]; reflexivity.
Qed.

(** X3. On a store for which writing the same record again changes
    nothing, a second [Create] with the same request at the same timestamp
    returns the same order and leaves the service as the first left it. *)
Theorem Create_twice_is_Create_once s now in_ resp err s1 :
  (forall st key value st',
      Put key value st = (None, st') -> Put key value st' = (None, st')) ->
  Create s now in_ = (Return (resp, err), s1) ->
  Create s1 now in_ = (Return (resp, err), s1).
Proof.
  intros Hput Hc.
  apply Create_Return in Hc as (st & data & st' & _ & Hm & Hp & -> & -> & ->).
  exact (Create_succeeds {| storage := Some st'; p2p := p2p s |} st' now in_
           data st' eq_refl Hm (Hput _ _ _ _ Hp)).
Qed.

(** X4. After [Create] returned an order, [Delete] for its id returns an
    acknowledgement and the store holds no record under the id, on a store
    that accepts the deletion of a key just written and reads nothing
    under a deleted key. *)
Theorem Create_then_Delete s now in_ resp err s1 :
  (forall st key value st',
      Put key value st = (None, st') ->
      exists st'', Interfaces.Delete key st' = (None, st'')) ->
  (forall st key st',
      Interfaces.Delete key st = (None, st') -> exists e, Get key st' = Err e) ->
  Create s now in_ = (Return (resp, err), s1) ->
  exists st2 e,
    Delete s1 {| GetId := order_id in_ now |}
    = (Return ({| GenericResponse_Error := None |}, None),
       {| storage := Some st2; p2p := p2p s |})
    /\ Get (order_id in_ now) st2 = Err e.
Proof.
  intros Hdel Hgone Hc.
  apply Create_Return in Hc as (st & data & st' & _ & _ & Hp & -> & _).
  destruct (Hdel _ _ _ _ Hp) as (st2 & Hd).
  destruct (Hgone _ _ _ Hd) as (e & He).
  exists st2, e. split; [|exact He].
  unfold Delete. cbn [storage GetId p2p]. rewrite Hd. reflexivity.
Qed.

(** X5. A later [Create] does not disturb an order stored earlier under
    another id: on a store whose [Put] leaves the other keys alone, the
    record of the first order reads the same after the second [Create]. *)
Theorem Create_keeps_the_other_orders s now1 in1 now2 in2
    resp1 err1 s1 resp2 err2 s2 st1 st2 :
  (forall st key value st' key',
      Put key value st = (None, st') -> key' <> key ->
      Get key' st' = Get key' st) ->
  order_id in1 now1 <> order_id in2 now2 ->
  Create s now1 in1 = (Return (resp1, err1), s1) ->
  Create s1 now2 in2 = (Return (resp2, err2), s2) ->
  storage s1 = Some st1 ->
  storage s2 = Some st2 ->
  Get (order_id in1 now1) st2 = Get (order_id in1 now1) st1.
Proof.
  intros Hframe Hne H1 H2 Hs1 Hs2.
  apply Create_Return in H2 as (st & data & st' & Hs & _ & Hp & -> & _).
  rewrite Hs1 in Hs. injection Hs as <-.
  cbn [storage] in Hs2. injection Hs2 as <-.
  exact (Hframe _ _ _ _ _ Hp Hne).
Qed.

(** X6. [Delete] reports no failure through its results: when it
    returns, both error results are nil and the store took the deletion of
    the key of the request; when the store refuses, [Delete] panics with
    the error of the store, and without a registered store it panics on the
    nil store. *)
Theorem Delete_fails_only_by_panic s in_ :
  (forall resp err s',
      Delete s in_ = (Return (resp, err), s') ->
      err = None /\ GenericResponse_Error resp = None
      /\ exists st st',
          storage s = Some st
          /\ Interfaces.Delete (GetId in_) st = (None, st')
          /\ storage s' = Some st')
  /\ (forall st err st',
         storage s = Some st ->
         Interfaces.Delete (GetId in_) st = (Some err, st') ->
         fst (Delete s in_) = Panic err)
  /\ (storage s = None -> fst (Delete s in_) = Panic nil_dereference).
Proof.
  unfold Delete. split; [|split].
  - intros resp err s'. destruct (storage s) as [st|]; [|discriminate].
    destruct (Interfaces.Delete (GetId in_) st) as [[e|] st'] eqn:Hd;
      [discriminate|].
    intros [= <- <- <-]. repeat split. exists st, st'. repeat split.
    exact Hd.
  - intros st err st' -> ->. reflexivity.
  - intros ->. reflexivity.
Qed.

End OrderLifecycle.

(** *** On the in-memory store *)

Lemma Store_Put_again (st : Db.Store) key value st' :
  Put key value st = (None, st') -> Put key value st' = (None, st').
Proof.
  cbn [Put Db.Store_Storage]. unfold Db.store_Put.
  destruct (Db.fault st); [discriminate|]. intros [= <-].
  cbn [Db.fault Db.db]. rewrite insert_insert_eq. reflexivity.
Qed.

Lemma Store_Delete_after_Put (st : Db.Store) key value st' :
  Put key value st = (None, st') ->
  exists st'', Interfaces.Delete key st' = (None, st'').
Proof.
  cbn [Put Interfaces.Delete Db.Store_Storage].
  unfold Db.store_Put, Db.store_Delete.
  destruct (Db.fault st); [discriminate|]. intros [= <-].
  cbn [Db.fault]. eexists. reflexivity.
Qed.

Lemma Store_Get_deleted (st : Db.Store) key st' :
  Interfaces.Delete key st = (None, st') -> exists e, Get key st' = Err e.
Proof.
  cbn [Get Interfaces.Delete Db.Store_Storage].
  unfold Db.store_Get, Db.store_Delete.
  destruct (Db.fault st); [discriminate|]. intros [= <-].
  cbn [Db.db]. rewrite lookup_delete_eq. eexists. reflexivity.
Qed.

(** The order of the tests. *)
Lemma Create_returns_an_open_order_witness :
  exists order,
    CreatedOrder testResponse = Some order
    /\ State_ order = State_OPEN
    /\ Signature order = []
    /\ Created order = testNow
    /\ Asset order = in_Asset testOrder
    /\ CounterAsset order = in_CounterAsset testOrder
    /\ Amount order = in_Amount testOrder
    /\ Price order = in_Price testOrder
    /\ length (Id order) = 32%nat
    /\ (None : option error) = None
    /\ Error testResponse = None.
Proof.
  exact (Create_returns_an_open_order testService testNow testOrder _ _ _
           Create_testOrder).
Defined.

(** The order of the tests, created twice. *)
Lemma Create_twice_is_Create_once_witness :
  Create testStored testNow testOrder = (Return (testResponse, None), testStored).
Proof.
  exact (Create_twice_is_Create_once testService testNow testOrder _ _ _
           Store_Put_again Create_testOrder).
Defined.

(** The order of the tests, created and deleted. *)
Lemma Create_then_Delete_witness :
  exists st2 e,
    Delete testStored {| GetId := order_id testOrder testNow |}
    = (Return ({| GenericResponse_Error := None |}, None),
       {| storage := Some st2; p2p := p2p testService |})
    /\ Get (order_id testOrder testNow) st2 = Err e.
Proof.
  exact (Create_then_Delete testService testNow testOrder _ _ _
           Store_Delete_after_Put Store_Get_deleted Create_testOrder).
Defined.

Lemma order_id_testLater :
  order_id testOrder testNow <> order_id testOrder testLater.
Proof. vm_compute. discriminate. Qed.

Lemma Create_testOrder_later :
  Create testStored testLater testOrder
  = (Return ({| CreatedOrder := Some (new_order testOrder testLater);
                Error := None |}, None),
     testStoredTwice).
Proof.
  exact (Create_succeeds testStored
           (Db.open {[ order_id testOrder testNow := testRecord ]})
           testLater testOrder (encode (new_order testOrder testLater))
           (Db.open (<[order_id testOrder testLater :=
                        encode (new_order testOrder testLater)]>
                       {[ order_id testOrder testNow := testRecord ]}))
           eq_refl eq_refl eq_refl).
Qed.

(** The order of the tests, and the same request a second later. *)
Lemma Create_keeps_the_other_orders_witness :
  Get (order_id testOrder testNow)
      (Db.open (<[order_id testOrder testLater :=
                   encode (new_order testOrder testLater)]>
                  {[ order_id testOrder testNow := testRecord ]}))
  = Get (order_id testOrder testNow)
        (Db.open {[ order_id testOrder testNow := testRecord ]}).
Proof.
  exact (Create_keeps_the_other_orders testService testNow testOrder
           testLater testOrder _ _ testStored _ _ testStoredTwice _ _
           Store_Get_other order_id_testLater Create_testOrder
           Create_testOrder_later eq_refl eq_refl).
Defined.

(** [Delete] of the order of the tests, on a closed database and without
    a registered store. *)
Lemma Delete_fails_only_by_panic_witness :
  ((None : option error) = None
   /\ GenericResponse_Error {| GenericResponse_Error := None |} = None
   /\ exists st st',
       storage testStored = Some st
       /\ Interfaces.Delete (order_id testOrder testNow) st = (None, st')
       /\ storage testService = Some st')
  /\ fst (Delete closedService {| GetId := order_id testOrder testNow |})
     = Panic "leveldb: closed"
  /\ fst (Delete (S := Db.Store)
            {| storage := None; p2p := Some ([] : list WireMessage) |}
            {| GetId := order_id testOrder testNow |})
     = Panic nil_dereference.
Proof.
  split; [|split].
  - refine (proj1 (Delete_fails_only_by_panic testStored
                     {| GetId := order_id testOrder testNow |}) _ _ testService _).
    unfold Delete, testStored, testService. cbn.
    rewrite delete_singleton_eq. reflexivity.
  - exact (proj1 (proj2 (Delete_fails_only_by_panic closedService
                           {| GetId := order_id testOrder testNow |}))
             _ _ _ eq_refl eq_refl).
  - exact (proj2 (proj2 (Delete_fails_only_by_panic
                           {| storage := None; p2p := Some [] |}
                           {| GetId := order_id testOrder testNow |}))
             eq_refl).
Defined.

(** ** The first transport: what a broadcast writes, and listening *)

Section TransportProperties.

Context (net : Network).

Implicit Types (host : Host) (peerChan : list AddrInfo) (input : bytes).
Implicit Types (tr : list Event).

Lemma sendToPeers_writes host peerChan input tr :
  exists new,
    snd (sendToPeers net host peerChan input tr) = tr ++ new
    /\ Forall (fun data => data = input) (payloads new)
    /\ written new = opened new.
Proof.
  revert tr. induction peerChan as [|peer peerChan IH]; intros tr; simpl.
  - exists []. rewrite app_nil_r. repeat split. constructor.
  - destruct (decide (ID peer = host_ID host)) as [Heq|Hne]; [apply IH|].
    destruct (dial net tr (ID peer)) as [n|err].
    + set (s := {| sid := n; remote := ID peer |}).
      destruct (writeData net s input (tr ++ [EvNewStream (ID peer) None]))
        as [[u|v] tr'] eqn:Hw.
      * apply writeData_Return in Hw as ->.
        destruct (IH ((tr ++ [EvNewStream (ID peer) None])
                        ++ [EvWrite s input; EvFlush s]))
          as (new & -> & Hpay & Hwr).
        exists (EvNewStream (ID peer) None :: EvWrite s input :: EvFlush s :: new).
        split; [rewrite <- !app_assoc; reflexivity|].
        unfold payloads, written, opened in *. cbn.
        split; [constructor; [reflexivity | exact Hpay] | rewrite Hwr; reflexivity].
      * pose proof (writeData_trace net s input
                      (tr ++ [EvNewStream (ID peer) None])) as Htr.
        rewrite Hw in Htr. cbn [snd] in Htr |- *.
        destruct Htr as [-> | ->]; rewrite <- app_assoc; eexists;
          (split; [reflexivity|]); cbn;
          (split; [repeat constructor | reflexivity]).
    + destruct (IH (tr ++ [EvNewStream (ID peer) (Some err)]))
        as (new & -> & Hpay & Hwr).
      exists (EvNewStream (ID peer) (Some err) :: new).
      split; [rewrite <- app_assoc; reflexivity|].
      unfold payloads, written, opened in *. cbn. split; assumption.
Qed.

(** X7. Whatever the network does, a broadcast hands to [Write] the
    message it was given and nothing else, and it writes to exactly the
    streams it opened, in the order it opened them. *)
Theorem sendToPeers_writes_the_input_to_opened_streams host peerChan input :
  Forall (fun data => data = input)
         (payloads (snd (sendToPeers net host peerChan input [])))
  /\ written (snd (sendToPeers net host peerChan input []))
     = opened (snd (sendToPeers net host peerChan input [])).
Proof.
  destruct (sendToPeers_writes host peerChan input []) as (new & -> & H).
  exact H.
Qed.

(** X8. When the node itself is the only peer discovered, however many
    times, a broadcast returns without touching the network. *)
Theorem sendToPeers_alone host peerChan input tr :
  Forall (fun peer => ID peer = host_ID host) peerChan ->
  sendToPeers net host peerChan input tr = (Return tt, tr).
Proof.
  induction 1 as [|peer peerChan Hself _ IH]; simpl; [reflexivity|].
  destruct (decide (ID peer = host_ID host)); [exact IH | contradiction].
Qed.

Lemma listenPeers_trace host peerChan tr :
  exists new,
    snd (listenPeers net host peerChan tr) = tr ++ new
    /\ dialled new = filter (fun p => p <> host_ID host) (ID <$> peerChan)
    /\ remote <$> fst (listenPeers net host peerChan tr) = opened new
    /\ Forall (fun e => exists p err, e = EvNewStream p err
                                      /\ p <> host_ID host) new.
Proof.
  revert tr. induction peerChan as [|peer peerChan IH]; intros tr.
  - exists []. cbn. rewrite app_nil_r. repeat split. constructor.
  - cbn [listenPeers fmap list_fmap].
    destruct (decide (ID peer = host_ID host)) as [Heq|Hne].
    { rewrite filter_cons_False by (intros H; apply H; exact Heq). apply IH. }
    rewrite filter_cons_True by exact Hne.
    destruct (dial net tr (ID peer)) as [n|err].
    + destruct (IH (tr ++ [EvNewStream (ID peer) None]))
        as (new & Htr & Hd & Ho & Hev).
      destruct (listenPeers net host peerChan
                  (tr ++ [EvNewStream (ID peer) None])) as [readers tr'].
      cbn [fst snd] in *. subst tr'.
      exists (EvNewStream (ID peer) None :: new).
      split; [rewrite <- app_assoc; reflexivity|].
      unfold dialled, opened in *. cbn. rewrite Hd, Ho.
      repeat split. constructor; [eauto | exact Hev].
    + destruct (IH (tr ++ [EvNewStream (ID peer) (Some err)]))
        as (new & -> & Hd & Ho & Hev).
      exists (EvNewStream (ID peer) (Some err) :: new).
      split; [rewrite <- app_assoc; reflexivity|].
      unfold dialled, opened in *. cbn. rewrite Hd, Ho.
      repeat split. constructor; [eauto | exact Hev].
Qed.

(** X9. [listenPeers] requests a stream to every discovered peer other
    than the node itself, in order and whatever the earlier requests came
    to, starts one read loop on each stream that opened, and does nothing
    else on the network: it writes nothing and closes nothing. *)
Theorem listenPeers_reads_from_every_peer host peerChan :
  dialled (snd (listenPeers net host peerChan []))
  = filter (fun p => p <> host_ID host) (ID <$> peerChan)
  /\ remote <$> fst (listenPeers net host peerChan [])
     = opened (snd (listenPeers net host peerChan []))
  /\ Forall (fun e => exists p err, e = EvNewStream p err /\ p <> host_ID host)
            (snd (listenPeers net host peerChan [])).
Proof.
  destruct (listenPeers_trace host peerChan []) as (new & -> & Hd & Ho & Hev).
  cbn [app]. auto.
Qed.

End TransportProperties.

(** A node that discovered itself twice. *)
Lemma sendToPeers_alone_witness :
  sendToPeers brokenNet testHost [peer "QmSelf"; peer "QmSelf"] testMessage []
  = (Return tt, []).
Proof.
  apply (sendToPeers_alone brokenNet testHost).
  repeat constructor.
Defined.

Example listenPeers_example :
  listenPeers flakyNet testHost testPeers []
  = ([{| sid := 0; remote := "QmA" |}; {| sid := 2; remote := "QmB" |}],
     [EvNewStream "QmA" None; EvNewStream "QmDown" (Some "dial backoff");
      EvNewStream "QmB" None]).
Proof. vm_compute. reflexivity. Qed.

(** ** The read loops: what they print, hand over and return *)

Section ReadLoopProperties.

Context (E : string -> option error -> error).
Context (IsEmpty : option error -> bool).
Context {R : Type} `{!Receiver R}.

Implicit Types (reader : Reader) (receiver : option R) (tr : list Event).
Implicit Types (data : bytes).

Lemma readData_output reader out :
  exists frames rest,
    pending reader = concat frames ++ rest
    /\ Forall is_frame frames
    /\ split_delim newline rest = None
    /\ readData reader out
       = (Panic (failure reader),
          out ++ (Printf_green
                    <$> filter (fun f => head f <> Some newline) frames)
              ++ [Println "Error reading from buffer"]).
Proof.
  funelim (readData reader out); forget_inspect.
  - pose proof (ReadBytes_error _ _ _ _ e) as (Hs & ->).
    exists [], (pending reader). repeat split; [constructor | exact Hs].
  - pose proof (ReadBytes_frame _ _ _ e) as (_ & Hfr).
    apply is_frame_nonempty in Hfr. contradiction.
  - pose proof (ReadBytes_frame _ _ _ Heq) as (Hp & Hfr).
    pose proof (ReadBytes_failure newline reader) as Hf.
    rewrite Heq in Hf. cbn [snd] in Hf.
    destruct H as (frames & rest & Hp' & Hfrs & Hs & Hrun).
    exists ((b :: data) :: frames), rest.
    split; [rewrite Hp, Hp'; cbn [concat]; rewrite <- app_assoc; reflexivity|].
    split; [constructor; assumption|]. split; [exact Hs|].
    rewrite Hrun, Hf.
    destruct (decide (b = newline)) as [->|Hne].
    + rewrite filter_cons_False by (intros Hh; apply Hh; reflexivity).
      reflexivity.
    + rewrite filter_cons_True by (cbn; congruence).
      cbn [fmap list_fmap]. rewrite <- app_assoc. reflexivity.
Qed.

(** X10. [readData] prints every line of the stream that does not start
    with a newline, in order and as it was read, then the line "Error
    reading from buffer", and panics with the error the stream ended with;
    the bytes after the last newline are not printed. *)
Theorem readData_prints_the_lines_and_panics reader :
  exists frames rest,
    pending reader = concat frames ++ rest
    /\ Forall is_frame frames
    /\ split_delim newline rest = None
    /\ readData reader []
       = (Panic (failure reader),
          (Printf_green <$> filter (fun f => head f <> Some newline) frames)
          ++ [Println "Error reading from buffer"]).
Proof. exact (readData_output reader []). Qed.

(** [receiveStream] goes on with the frames read. *)
Lemma receiveStream_unfold stream_ reader receiver tr data reader' :
  ReadBytes newline reader = ((data, None), reader') ->
  receiveStream E IsEmpty stream_ reader receiver tr
  = match receiveStream_frame E IsEmpty stream_ receiver data tr with
    | (Done r, st) => (r, st)
    | (Continue, (receiver', tr')) =>
        receiveStream E IsEmpty stream_ reader' receiver' tr'
    end.
Proof.
  intros Hread.
  funelim (receiveStream E IsEmpty stream_ reader receiver tr); forget_inspect.
  - rewrite Hread in e. discriminate.
  - rewrite Hread in Heq. injection Heq as <- <-. rewrite Heq0. reflexivity.
  - rewrite Hread in Heq. injection Heq as <- <-. rewrite Heq0. reflexivity.
Qed.

Lemma receiveStream_frame_accepted stream_ (rc : R) data tr :
  IsEmpty (fst (Receive data rc)) = true ->
  data <> [] ->
  receiveStream_frame E IsEmpty stream_ (Some rc) data tr
  = (Continue, (Some (snd (Receive data rc)), tr ++ [EvReceive data])).
Proof.
  intros Hacc Hne. unfold receiveStream_frame.
  destruct (Receive data rc) as [err rc']. cbn [fst snd] in *.
  rewrite Hacc. cbn [negb]. destruct data; [contradiction | reflexivity].
Qed.

Lemma receiveStream_accepting stream_ reader (rc : R) tr :
  (forall data rc, IsEmpty (fst (Receive data rc)) = true) ->
  exists frames rest,
    pending reader = concat frames ++ rest
    /\ Forall is_frame frames
    /\ split_delim newline rest = None
    /\ receiveStream E IsEmpty stream_ reader (Some rc) tr
       = (Return (Some (E "Reading bytes from stream" (Some (failure reader)))),
          (Some (feed frames rc), tr ++ (EvReceive <$> frames))).
Proof.
  intros Hacc.
  remember (length (pending reader)) as n eqn:Hn.
  revert reader rc tr Hn.
  induction n as [n IH] using lt_wf_ind. intros reader rc tr ->.
  destruct (ReadBytes newline reader) as [[data [err|]] reader'] eqn:Hread.
  - pose proof (ReadBytes_error _ _ _ _ Hread) as (Hs & ->).
    exists [], (pending reader). cbn. rewrite app_nil_r.
    repeat split; [constructor | exact Hs |].
    apply receiveStream_read_error. exact Hs.
  - pose proof (ReadBytes_frame _ _ _ Hread) as (Hp & Hfr).
    pose proof (ReadBytes_failure newline reader) as Hf.
    rewrite Hread in Hf. cbn [snd] in Hf.
    assert (Hlt : (length (pending reader') < length (pending reader))%nat).
    { rewrite Hp, length_app.
      pose proof (is_frame_nonempty _ Hfr). destruct data; [contradiction|].
      cbn. lia. }
    destruct (IH _ Hlt reader' (snd (Receive data rc))
                (tr ++ [EvReceive data]) eq_refl)
      as (frames & rest & Hp' & Hfrs & Hs & Hrun).
    exists (data :: frames), rest.
    split; [rewrite Hp, Hp'; cbn [concat]; rewrite <- app_assoc; reflexivity|].
    split; [constructor; assumption|]. split; [exact Hs|].
    rewrite (receiveStream_unfold _ _ _ _ _ _ Hread).
    rewrite receiveStream_frame_accepted
      by (auto using is_frame_nonempty).
    rewrite Hrun, Hf. cbn [fmap list_fmap feed fold_left].
    rewrite <- app_assoc. reflexivity.
Qed.

(** X11. With a receiver that refuses nothing, [receiveStream] hands over
    every complete line of the stream, in order and as it was read, and the
    receiver is left as these lines made it; the loop then returns the
    error the stream ended with, and the bytes after the last newline are
    handed to nobody. *)
Theorem receiveStream_delivers_every_line stream_ reader (rc : R) :
  (forall data rc, IsEmpty (fst (Receive data rc)) = true) ->
  exists frames rest,
    pending reader = concat frames ++ rest
    /\ Forall is_frame frames
    /\ split_delim newline rest = None
    /\ receiveStream E IsEmpty stream_ reader (Some rc) []
       = (Return (Some (E "Reading bytes from stream" (Some (failure reader)))),
          (Some (feed frames rc), EvReceive <$> frames)).
Proof. intros Hacc. exact (receiveStream_accepting stream_ reader rc [] Hacc). Qed.

Lemma receiveStream_frame_Done stream_ receiver data tr r st :
  data <> [] ->
  receiveStream_frame E IsEmpty stream_ receiver data tr = (Done r, st) ->
  exists e, r = Return (Some e).
Proof.
  intros Hne. unfold receiveStream_frame.
  destruct receiver as [rc|]; [|intros [= <- _]; eauto].
  destruct (Receive data rc) as [err rc'].
  destruct (negb (IsEmpty err)); [intros [= <- _]; eauto|].
  destruct data; [contradiction | discriminate].
Qed.

(** X12. [receiveStream] never returns nil: whatever the stream carries
    and however the receiver answers, the loop ends by returning an error
    (of the read, of the receiver, or for the missing receiver). *)
Theorem receiveStream_always_returns_an_error stream_ reader receiver tr :
  exists e,
    fst (receiveStream E IsEmpty stream_ reader receiver tr) = Return (Some e).
Proof.
  funelim (receiveStream E IsEmpty stream_ reader receiver tr); forget_inspect.
  - eauto.
  - exact H.
  - pose proof (ReadBytes_frame _ _ _ Heq) as (_ & Hfr).
    exact (receiveStream_frame_Done _ _ _ _ _ _ (is_frame_nonempty _ Hfr) Heq0).
Qed.

(** X13. The read loop of an accepted stream never closes the stream,
    however the loop ends. *)
Theorem handleStream_never_closes buf reader receiver tr :
  closes (snd (snd (handleStream E IsEmpty buf reader receiver tr)))
  = closes tr.
Proof.
  unfold handleStream.
  destruct (receiveStream_run E IsEmpty
              {| stream := Some buf; input := None; output := Some reader |}
              reader receiver tr) as (frames & rest & -> & _).
  unfold closes. rewrite omap_app. fold (closes (EvReceive <$> frames)).
  rewrite closes_EvReceive, app_nil_r. reflexivity.
Qed.

(** X14. Without a receiver, [receiveStream] hands nothing over: it
    returns the error for the missing receiver as soon as the stream holds
    a complete line, which is read and lost, and the error of the read
    otherwise. *)
Theorem receiveStream_without_receiver stream_ reader tr :
  receiveStream E IsEmpty stream_ reader None tr
  = (Return (Some
       (match split_delim newline (pending reader) with
        | Some _ => E "No receiver defined for stream.receiveStream" None
        | None => E "Reading bytes from stream" (Some (failure reader))
        end)),
     (None, tr)).
Proof.
  destruct (split_delim newline (pending reader)) as [[line rest]|] eqn:Hs.
  - assert (Hread : ReadBytes newline reader
                    = ((line, None),
                       {| pending := rest; failure := failure reader |}))
      by (unfold ReadBytes; rewrite Hs; reflexivity).
    rewrite (receiveStream_unfold _ _ _ _ _ _ Hread). reflexivity.
  - apply receiveStream_read_error. exact Hs.
Qed.

End ReadLoopProperties.

(** A receiver that refuses nothing, on a stream of two lines and a
    half. *)
Lemma receiveStream_delivers_every_line_witness :
  exists frames rest,
    pending twoFrames = concat frames ++ rest
    /\ Forall is_frame frames
    /\ split_delim newline rest = None
    /\ receiveStream E IsEmpty inboundStream twoFrames (Some ([] : list bytes)) []
       = (Return (Some (E "Reading bytes from stream" (Some (failure twoFrames)))),
          (Some (feed frames []), EvReceive <$> frames)).
Proof.
  exact (receiveStream_delivers_every_line E IsEmpty inboundStream twoFrames []
           (fun _ _ => eq_refl)).
Defined.

Example readData_two_lines :
  readData emptyLine []
  = (Panic "EOF",
     [Printf_green (bytes_of_string "ab" ++ [newline]);
      Printf_green (bytes_of_string "cd" ++ [newline]);
      Println "Error reading from buffer"]).
Proof. vm_compute. reflexivity. Qed.

(** ** The map of streams under [OpenStream] and [CloseStream] *)

Section StreamMapProperties.

Context (net : Network).
Context (IDFromString : string -> PeerID).

Implicit Types (p2p : P2p) (peerIDString : string) (tr : list Event).

(** [OpenStream] on a node with a logger: the stream that opened is
    registered and the line logged. *)
Lemma OpenStream_logged p2p peerIDString tr n lines :
  Logger p2p = Some lines ->
  dial net tr (IDFromString peerIDString) = Ok n ->
  OpenStream net IDFromString p2p peerIDString tr
  = (Return None,
     ({| host := host p2p; peerChan := peerChan p2p;
         streams :=
           <[peerIDString :=
               {| stream := Some {| sid := n; remote := IDFromString peerIDString |};
                  input := Some {| sid := n; remote := IDFromString peerIDString |};
                  output := None |}]> (streams p2p);
         Logger := Some (lines ++ ["Stream opened with "
                                   +:+ IDFromString peerIDString]) |},
      tr ++ [EvNewStream (IDFromString peerIDString) None])).
Proof.
  intros Hlog Hdial. unfold OpenStream, log_line. rewrite Hdial.
  cbn [Logger with_streams]. rewrite Hlog. reflexivity.
Qed.

(** X15. On a node with a logger, opening a stream to a peer that has
    none and closing it again leaves the map of streams as it was: the
    stream is registered in between and closed by the second call; what
    stays is the line logged. *)
Theorem OpenStream_then_CloseStream p2p peerIDString tr n lines :
  Logger p2p = Some lines ->
  streams p2p !! peerIDString = None ->
  dial net tr (IDFromString peerIDString) = Ok n ->
  exists p2p1 tr1,
    OpenStream net IDFromString p2p peerIDString tr = (Return None, (p2p1, tr1))
    /\ streams p2p1 !! peerIDString
       = Some {| stream := Some {| sid := n; remote := IDFromString peerIDString |};
                 input := Some {| sid := n; remote := IDFromString peerIDString |};
                 output := None |}
    /\ CloseStream net p2p1 peerIDString tr1
       = (Return (close_error net tr1
                    {| sid := n; remote := IDFromString peerIDString |}),
          (with_Logger p2p
             (lines ++ ["Stream opened with " +:+ IDFromString peerIDString]),
           tr ++ [EvNewStream (IDFromString peerIDString) None;
                  EvClose {| sid := n; remote := IDFromString peerIDString |}])).
Proof.
  intros Hlog Hnone Hdial.
  rewrite (OpenStream_logged _ _ _ _ _ Hlog Hdial).
  eexists _, _. split; [reflexivity|].
  cbn [streams]. split; [apply lookup_insert_eq|].
  unfold CloseStream. cbn [streams with_streams host peerChan Logger].
  rewrite lookup_insert_eq. simpl (default _ _). cbn [stream].
  rewrite delete_insert_id by exact Hnone.
  rewrite <- app_assoc. reflexivity.
Qed.

(** X16. On a node with a logger, opening a second stream to a peer that
    has one replaces the entry of the map and closes nothing: a later
    [CloseStream] closes the second stream only and leaves the peer without
    entry, so that the first stream is never closed. *)
Theorem OpenStream_twice_leaves_the_first_open p2p peerIDString tr n1 n2 lines :
  Logger p2p = Some lines ->
  dial net tr (IDFromString peerIDString) = Ok n1 ->
  dial net (tr ++ [EvNewStream (IDFromString peerIDString) None])
       (IDFromString peerIDString) = Ok n2 ->
  exists p2p1 tr1 p2p2 tr2 p2p3 tr3 err,
    OpenStream net IDFromString p2p peerIDString tr = (Return None, (p2p1, tr1))
    /\ OpenStream net IDFromString p2p1 peerIDString tr1
       = (Return None, (p2p2, tr2))
    /\ closes tr2 = closes tr
    /\ CloseStream net p2p2 peerIDString tr2 = (Return err, (p2p3, tr3))
    /\ closes tr3
       = closes tr ++ [{| sid := n2; remote := IDFromString peerIDString |}]
    /\ streams p2p3 !! peerIDString = None.
Proof.
  intros Hlog Hd1 Hd2.
  rewrite (OpenStream_logged _ _ _ _ _ Hlog Hd1).
  eexists _, _, _, _, _, _, _. split; [reflexivity|].
  split; [apply OpenStream_logged; [reflexivity | exact Hd2]|].
  split; [unfold closes; rewrite !omap_app; cbn; rewrite !app_nil_r; reflexivity|].
  unfold CloseStream. cbn [streams with_streams host peerChan Logger].
  rewrite lookup_insert_eq. simpl (default _ _). cbn [stream].
  split; [reflexivity|]. cbn [streams with_streams].
  split; [|apply lookup_delete_eq].
  unfold closes. rewrite !omap_app. cbn. rewrite !app_nil_r. reflexivity.
Qed.

(** X19. On a node no logger was given to, [OpenStream] panics whatever
    the dial came to; when the stream opened, it was put into the map
    before the panic and stays there, and when it did not, the map is
    untouched. *)
Theorem OpenStream_without_Logger_panics p2p peerIDString tr :
  Logger p2p = None ->
  fst (OpenStream net IDFromString p2p peerIDString tr) = Panic nil_dereference
  /\ streams (fst (snd (OpenStream net IDFromString p2p peerIDString tr)))
     = match dial net tr (IDFromString peerIDString) with
       | Ok n =>
           <[peerIDString :=
               {| stream := Some {| sid := n; remote := IDFromString peerIDString |};
                  input := Some {| sid := n; remote := IDFromString peerIDString |};
                  output := None |}]> (streams p2p)
       | Err _ => streams p2p
       end.
Proof.
  intros Hlog. unfold OpenStream, log_line.
  destruct (dial net tr (IDFromString peerIDString)) as [n|err];
    cbn [Logger with_streams]; rewrite Hlog; split; reflexivity.
Qed.

(** X17. [OpenStream] and [CloseStream] change the entry of the peer they
    are called for and no other, however they end. *)
Theorem OpenStream_and_CloseStream_keep_the_other_peers
    p2p peerIDString other tr :
  other <> peerIDString ->
  streams (fst (snd (OpenStream net IDFromString p2p peerIDString tr))) !! other
  = streams p2p !! other
  /\ streams (fst (snd (CloseStream net p2p peerIDString tr))) !! other
     = streams p2p !! other.
Proof.
  intros Hne. split.
  - unfold OpenStream, log_line.
    destruct (dial net tr _); cbn [Logger with_streams];
      destruct (Logger p2p); cbn [fst snd streams with_streams with_Logger];
      try reflexivity; apply lookup_insert_ne; congruence.
  - unfold CloseStream.
    destruct (stream (default zero_Stream (streams p2p !! peerIDString)));
      [|reflexivity].
    cbn [fst snd streams with_streams]. apply lookup_delete_ne. congruence.
Qed.

(** X18. That every entry of the map holds a stream is kept by
    [OpenStream] and by [CloseStream]; while it holds, [CloseStream]
    returns for the peers that have an entry and panics for all others. *)
Theorem registered_ok_is_kept p2p peerIDString tr :
  registered_ok p2p ->
  registered_ok (fst (snd (OpenStream net IDFromString p2p peerIDString tr)))
  /\ registered_ok (fst (snd (CloseStream net p2p peerIDString tr)))
  /\ (returns (fst (CloseStream net p2p peerIDString tr)) = true
      <-> is_Some (streams p2p !! peerIDString)).
Proof.
  intros Hok. split; [|split].
  - unfold OpenStream, log_line.
    destruct (dial net tr _); cbn [Logger with_streams];
      destruct (Logger p2p); cbn [fst snd]; intros k st;
      cbn [streams with_streams with_Logger];
      try exact (Hok k st);
      rewrite lookup_insert_Some; (intros [[_ <-] | [_ Hk]]; [eauto|]);
      exact (Hok _ _ Hk).
  - unfold CloseStream.
    destruct (stream (default zero_Stream (streams p2p !! peerIDString)));
      [|exact Hok].
    cbn [fst snd]. intros k st. cbn [streams with_streams].
    rewrite lookup_delete_Some. intros [_ Hk]. exact (Hok _ _ Hk).
  - unfold CloseStream.
    destruct (streams p2p !! peerIDString) as [st|] eqn:Hst; simpl (default _ _).
    + destruct (Hok _ _ Hst) as [s ->]. cbn. split; eauto.
    + cbn. split; [discriminate | intros [? ?]; discriminate].
Qed.

End StreamMapProperties.

Lemma registered_ok_connectedP2p : registered_ok connectedP2p.
Proof.
  intros k st. unfold connectedP2p. cbn [streams].
  rewrite lookup_singleton_Some. intros [_ <-]. eauto.
Qed.

(** A stream to a peer, opened and closed. *)
Lemma OpenStream_then_CloseStream_witness :
  exists p2p1 tr1,
    OpenStream flakyNet IDFromString testP2p testPeerID []
    = (Return None, (p2p1, tr1))
    /\ streams p2p1 !! testPeerID
       = Some {| stream := Some {| sid := 0; remote := IDFromString testPeerID |};
                 input := Some {| sid := 0; remote := IDFromString testPeerID |};
                 output := None |}
    /\ CloseStream flakyNet p2p1 testPeerID tr1
       = (Return (close_error flakyNet tr1
                    {| sid := 0; remote := IDFromString testPeerID |}),
          (with_Logger testP2p
             ([] ++ ["Stream opened with " +:+ IDFromString testPeerID]),
           [] ++ [EvNewStream (IDFromString testPeerID) None;
                  EvClose {| sid := 0; remote := IDFromString testPeerID |}])).
Proof.
  exact (OpenStream_then_CloseStream flakyNet IDFromString testP2p testPeerID
           [] 0%nat [] eq_refl (lookup_empty _) eq_refl).
Defined.

(** Two streams to the same peer, opened one after the other. *)
Lemma OpenStream_twice_leaves_the_first_open_witness :
  exists p2p1 tr1 p2p2 tr2 p2p3 tr3 err,
    OpenStream flakyNet IDFromString testP2p testPeerID []
    = (Return None, (p2p1, tr1))
    /\ OpenStream flakyNet IDFromString p2p1 testPeerID tr1
       = (Return None, (p2p2, tr2))
    /\ closes tr2 = closes []
    /\ CloseStream flakyNet p2p2 testPeerID tr2 = (Return err, (p2p3, tr3))
    /\ closes tr3
       = closes [] ++ [{| sid := 1; remote := IDFromString testPeerID |}]
    /\ streams p2p3 !! testPeerID = None.
Proof.
  exact (OpenStream_twice_leaves_the_first_open flakyNet IDFromString testP2p
           testPeerID [] 0%nat 1%nat [] eq_refl eq_refl eq_refl).
Defined.

(** A node without logger: a stream that opens and one that does not. *)
Lemma OpenStream_without_Logger_panics_witness :
  fst (OpenStream flakyNet IDFromString silentP2p testPeerID [])
  = Panic nil_dereference
  /\ streams (fst (snd (OpenStream flakyNet IDFromString silentP2p testPeerID [])))
     = match dial flakyNet [] (IDFromString testPeerID) with
       | Ok n =>
           <[testPeerID :=
               {| stream := Some {| sid := n; remote := IDFromString testPeerID |};
                  input := Some {| sid := n; remote := IDFromString testPeerID |};
                  output := None |}]> (streams silentP2p)
       | Err _ => streams silentP2p
       end.
Proof.
  exact (OpenStream_without_Logger_panics flakyNet IDFromString silentP2p
           testPeerID [] eq_refl).
Defined.

(** The entry of [QmA] when a stream to [QmB] is opened or closed. *)
Lemma OpenStream_and_CloseStream_keep_the_other_peers_witness :
  streams (fst (snd (OpenStream flakyNet id connectedP2p "QmB" []))) !! "QmA"%string
  = streams connectedP2p !! "QmA"%string
  /\ streams (fst (snd (CloseStream flakyNet connectedP2p "QmB" []))) !! "QmA"%string
     = streams connectedP2p !! "QmA"%string.
Proof.
  apply (OpenStream_and_CloseStream_keep_the_other_peers flakyNet id
           connectedP2p "QmB" "QmA" []).
  discriminate.
Defined.

(** The node with a stream to [QmA]. *)
Lemma registered_ok_is_kept_witness :
  registered_ok (fst (snd (OpenStream flakyNet id connectedP2p "QmB" [])))
  /\ registered_ok (fst (snd (CloseStream flakyNet connectedP2p "QmB" [])))
  /\ (returns (fst (CloseStream flakyNet connectedP2p "QmB" [])) = true
      <-> is_Some (streams connectedP2p !! "QmB"%string)).
Proof.
  exact (registered_ok_is_kept flakyNet id connectedP2p "QmB" []
           registered_ok_connectedP2p).
Defined.
